(** * Alpha variant remapper (scripts/make_boundary_translucent.py)

    A shallow embedding of the alpha-mode detector, the pixel remapper and
    the batch driver, with the properties the specification states about
    them; and of the icon exporter (graphics/export_icons.py), in the
    module [ExportIcons].

    Python integers are modelled as [Z]; loop counters, image sizes and
    list indices as [nat].  Code that can raise returns a [result]; the
    batch driver additionally threads the observable world (files saved,
    lines printed, paths opened). *)

From Stdlib Require Import ZArith QArith Qround Ascii String Lia.
From stdpp Require Import base numbers list sorting strings pretty.

Local Open Scope Z_scope.

(** ** Exceptions *)

Inductive exn : Set :=
  | IndexError   (* list or image index out of range *)
  | OSError      (* PIL / filesystem failure: unreadable, corrupt, unwritable;
                    also a closed stdout *)
  | UnicodeEncodeError.   (* a line that stdout cannot encode *)

Inductive result (A : Type) : Type :=
  | Ok (a : A)
  | Raise (e : exn).
Arguments Ok {A} a.
Arguments Raise {A} e.

#[export] Instance result_ret : MRet result := λ A a, Ok a.
#[export] Instance result_bind : MBind result :=
  λ A B f m, match m with Ok a => f a | Raise e => Raise e end.

(** [for x in xs: s = body(x, s)], stopping at the first exception. *)
Fixpoint for_ {A S : Type} (xs : list A) (body : A → S → result S) (s : S)
  : result S :=
  match xs with
  | [] => Ok s
  | x :: xs' => s' ← body x s; for_ xs' body s'
  end.

Definition range (n : nat) : list nat := seq 0 n.

(** ** Images as the PIL interface shows them *)

(** An RGBA pixel is the 4-tuple [(r, g, b, a)]. *)
Definition Pixel : Type := Z * Z * Z * Z.

Definition red (p : Pixel) : Z := p.1.1.1.
Definition green (p : Pixel) : Z := p.1.1.2.
Definition blue (p : Pixel) : Z := p.1.2.
Definition alpha (p : Pixel) : Z := p.2.

(** [size] is [(width, height)]; [data] holds the pixels row after row. *)
Record Image : Type := mkImage { size : nat * nat; data : list Pixel }.

Definition pixel_index (w : nat) (xy : nat * nat) : nat :=
  (xy.2 * w + xy.1)%nat.

(** [img.getpixel((x, y))]: [IndexError] outside the image. *)
Definition getpixel (img : Image) (xy : nat * nat) : result Pixel :=
  let '(w, h) := size img in
  if bool_decide (xy.1 < w ∧ xy.2 < h)%nat then
    match data img !! pixel_index w xy with
    | Some p => Ok p
    | None => Raise IndexError
    end
  else Raise IndexError.

(** Pillow stores each channel of a pixel clipped to 0..255 (its
    [CLIP8]).  The channels are C ints there; the script passes 8-bit
    targets and channels read back from an image. *)
Definition clip8 (v : Z) : Z :=
  if bool_decide (v ≤ 0) then 0 else if bool_decide (v < 256) then v else 255.

Definition clip_pixel (p : Pixel) : Pixel :=
  (clip8 (red p), clip8 (green p), clip8 (blue p), clip8 (alpha p)).

(** [img.putpixel((x, y), p)]: [IndexError] outside the image. *)
Definition putpixel (img : Image) (xy : nat * nat) (p : Pixel) : result Image :=
  let '(w, h) := size img in
  if bool_decide (xy.1 < w ∧ xy.2 < h)%nat then
    match data img !! pixel_index w xy with
    | Some _ =>
        Ok (mkImage (w, h) (<[pixel_index w xy := clip_pixel p]> (data img)))
    | None => Raise IndexError
    end
  else Raise IndexError.

(** [Image.new("RGBA", (w, h))]: every pixel is [(0, 0, 0, 0)]. *)
Definition Image_new (sz : nat * nat) : Image :=
  mkImage sz (replicate (sz.2 * sz.1) (0, 0, 0, 0)).

(** ** The mode detector *)

(** [hist[a] += 1] on a Python list, for an index [a > 0]. *)
Definition hist_incr (hist : list Z) (a : Z) : result (list Z) :=
  match hist !! Z.to_nat a with
  | Some c => Ok (<[Z.to_nat a := c + 1]> hist)
  | None => Raise IndexError
  end.

(** [enumerate(hist)]: pairs [(a, c)]. *)
Definition enumerate (hist : list Z) : list (Z * Z) :=
  imap (λ i c, (Z.of_nat i, c)) hist.

(** The sort key [lambda t: (t[1], t[0])], compared as Python compares
    tuples. *)
Definition key_le (t u : Z * Z) : Prop :=
  t.2 < u.2 ∨ (t.2 = u.2 ∧ t.1 ≤ u.1).

(** With [reverse=True] the list is ordered by decreasing key. *)
Definition key_ge (t u : Z * Z) : Prop := key_le u t.

#[export] Instance key_ge_dec : RelDecision key_ge.
Proof. intros t u. unfold key_ge, key_le. apply _. Defined.

(** [non_zero.sort(key=lambda t: (t[1], t[0]), reverse=True)] *)
Definition sort_reverse (l : list (Z * Z)) : list (Z * Z) :=
  merge_sort key_ge l.

(** The histogram loop of [_detect_alpha_modes] (lines 93-100). *)
Definition alpha_hist (img : Image) : result (list Z) :=
  let '(w, h) := size img in
  for_ (range h) (λ y hist,
    for_ (range w) (λ x hist,
      rgba ← getpixel img (x, y);
      let a := alpha rgba in
      if bool_decide (a > 0) then hist_incr hist a else Ok hist) hist)
    (replicate 256 0).

(** Lines 101-111, on the finished histogram. *)
Definition modes_of_hist (hist : list Z) : result (option Z * option Z) :=
  let non_zero :=
    filter (λ t : Z * Z, t.1 > 0 ∧ t.2 > 0) (enumerate hist) in
  if bool_decide (non_zero = []) then Ok (None, None) else
  let non_zero := sort_reverse non_zero in
  let top := (take 2 non_zero).*1 in
  match top with
  | [t0] => Ok (Some t0, None)
  | t0 :: t1 :: _ =>
      let '(high, low) :=
        if bool_decide (t0 >= t1) then (t0, t1) else (t1, t0) in
      Ok (Some high, Some low)
  | [] => Raise IndexError
  end.

Definition _detect_alpha_modes (img : Image) : result (option Z * option Z) :=
  hist ← alpha_hist img;
  modes_of_hist hist.

(** *** Runs of the detector

    The detector again, with [list.sort] taken by its contract only: it
    leaves the same entries, in an order of decreasing key.  Which of the
    orders it picks among entries of equal key is left open. *)

Definition sorted_reverse (l s : list (Z * Z)) : Prop :=
  s ≡ₚ l ∧ Sorted key_ge s.

(** Lines 106-111, on the sorted list. *)
Definition select_modes (non_zero : list (Z * Z))
  : result (option Z * option Z) :=
  let top := (take 2 non_zero).*1 in
  match top with
  | [t0] => Ok (Some t0, None)
  | t0 :: t1 :: _ =>
      let '(high, low) :=
        if bool_decide (t0 >= t1) then (t0, t1) else (t1, t0) in
      Ok (Some high, Some low)
  | [] => Raise IndexError
  end.

(** [r] is what some run of [_detect_alpha_modes] on [img] ends with. *)
Definition detect_run (img : Image) (r : result (option Z * option Z))
  : Prop :=
  match alpha_hist img with
  | Raise e => r = Raise e
  | Ok hist =>
      let non_zero :=
        filter (λ t : Z * Z, t.1 > 0 ∧ t.2 > 0) (enumerate hist) in
      if bool_decide (non_zero = []) then r = Ok (None, None)
      else ∃ s, sorted_reverse non_zero s ∧ r = select_modes s
  end.

(** ** The pixel remapper: lines 116-142 of [transform_image] *)

(** [m is None or m == 0] *)
Definition none_or_zero (m : option Z) : bool :=
  match m with None => true | Some v => bool_decide (v = 0) end.

(** [m is not None and a == m] *)
Definition is_mode (m : option Z) (a : Z) : bool :=
  match m with None => false | Some v => bool_decide (a = v) end.

(** The body of the inner loop, lines 128-142, on the state
    [(out, changed)]. *)
Definition remap_step (img : Image) (high_mode low_mode : option Z)
    (opaque_alpha transparent_alpha lower_target_alpha : Z)
    (xy : nat * nat) (st : Image * Z) : result (Image * Z) :=
  let '(out, changed) := st in
  rgba ← getpixel img xy;
  let '(r, g, b, a) := rgba in
  if none_or_zero low_mode && bool_decide (a > 0) then
    out ← putpixel out xy (r, g, b, lower_target_alpha);
    Ok (out, changed + 1)
  else if is_mode high_mode a then
    out ← putpixel out xy (r, g, b, opaque_alpha);
    Ok (out, changed + 1)
  else if is_mode low_mode a then
    out ← putpixel out xy (r, g, b, transparent_alpha);
    Ok (out, changed + 1)
  else
    out ← putpixel out xy (r, g, b, a);
    Ok (out, changed).

(** The decoded image in, the image to save, the diagnostic count and the
    detected modes out. *)
Definition remap (img : Image) (opaque_alpha transparent_alpha : Z)
  : result (Image * Z * (option Z * option Z)) :=
  modes ← _detect_alpha_modes img;
  let '(high_mode, low_mode) := modes in
  let '(w, h) := size img in
  let out := Image_new (w, h) in
  let changed := 0 in
  let lower_target_alpha := Z.min opaque_alpha transparent_alpha in
  st ← for_ (range h) (λ y st,
          for_ (range w) (λ x st,
            remap_step img high_mode low_mode opaque_alpha transparent_alpha
              lower_target_alpha (x, y) st) st)
        (out, changed);
  Ok (st, modes).

(** ** The batch driver *)

(** The lines the script prints, before formatting. *)
Inductive Msg : Type :=
  | Skip_missing (in_dir : string)
  | Processed (in_path out_path : string) (changed : Z)
      (high low : option Z) (lower_target : Z)
  | Done (total : Z) (variants : nat).

(** What the script meets in its environment.  The input side
    ([graphics/base/...]) is only read and the outputs go to
    [graphics/<tag>/...], so these observers are fixed during a run.
    [open_rgba p] is [Image.open(p).convert("RGBA")]; [can_mkdir d] tells
    whether [os.makedirs(d, exist_ok=True)] succeeds; [can_save p] whether
    creating the parent directory of [p] and saving to [p] succeeds;
    [print_exn m] is the exception [print] raises on the line [m], if any
    ([OSError] on a closed stdout, [UnicodeEncodeError] on a name that
    stdout cannot encode). *)
Record FileSystem : Type := mkFS {
  ROOT : string;
  isdir : string → bool;
  listdir : string → list string;
  isfile : string → bool;
  open_rgba : string → result Image;
  can_mkdir : string → bool;
  can_save : string → bool;
  print_exn : Msg → option exn;
}.

(** What the script leaves behind: the files saved, the lines printed and
    the paths handed to [Image.open], oldest first. *)
Record World : Type := mkWorld {
  saved : list (string * Image);
  stdout : list Msg;
  opened : list string;
}.

Definition world0 : World := mkWorld [] [] [].

(** Effectful code: an exception leaves the world as it was when raised. *)
Definition IO (A : Type) : Type := World → result A * World.

#[export] Instance IO_ret : MRet IO := λ A a w, (Ok a, w).
#[export] Instance IO_bind : MBind IO :=
  λ A B f m w,
    match m w with
    | (Ok a, w') => f a w'
    | (Raise e, w') => (Raise e, w')
    end.

Definition lift {A : Type} (r : result A) : IO A := λ w, (r, w).

(** [for x in xs: s = body(x, s)] in [IO]. *)
Fixpoint io_for {A S : Type} (xs : list A) (body : A → S → IO S) (s : S)
  : IO S :=
  match xs with
  | [] => mret s
  | x :: xs' => s' ← body x s; io_for xs' body s'
  end.

(** [c.lower()], ASCII. *)
Definition ascii_lower (c : ascii) : ascii :=
  let n := nat_of_ascii c in
  if bool_decide (65 ≤ n ≤ 90)%nat then ascii_of_nat (n + 32) else c.

Fixpoint lower (s : string) : string :=
  match s with
  | EmptyString => EmptyString
  | String c s' => String (ascii_lower c) (lower s')
  end.

Definition endswith (s suffix : string) : bool :=
  let n := String.length s in
  let m := String.length suffix in
  bool_decide (m ≤ n)%nat && String.eqb (substring (n - m) m s) suffix.

Definition startswith (s prefix : string) : bool := String.prefix prefix s.

(** [os.path.join(a, b)] of [posixpath]: an absolute [b] replaces [a], and
    no separator is added after an empty [a] or one that ends in a
    separator.  With three arguments, [os.path.join(a, b, c)] is
    [os.path.join(os.path.join(a, b), c)]. *)
Definition path_join (a b : string) : string :=
  if startswith b "/" then b
  else if bool_decide (a = "") || endswith a "/" then a +:+ b
  else a +:+ "/" +:+ b.

Record Variant : Type := mkVariant {
  tag : string;
  opaque_alpha : Q;
  transparent_alpha : Q;
}.

(** The fractions are written as exact decimals; on these six values
    [int(round(255 * x))] on floats gives the same integers. *)
Definition VARIANTS : list Variant :=
  [ mkVariant "a40_15" (40 # 100) (15 # 100);
    mkVariant "a20_075" (20 # 100) (75 # 1000);
    mkVariant "a10_25" (10 # 100) (25 # 100) ].

(** Python's [round]: to nearest, ties to even. *)
Definition round (q : Q) : Z :=
  let f := Qfloor q in
  match Qcompare (q - inject_Z f) (1 # 2) with
  | Lt => f
  | Gt => f + 1
  | Eq => if Z.even f then f else f + 1
  end.

(** One unit of work of the batch: a call of [ensure_dir], of
    [transform_image] or of [print]. *)
Inductive step : Type :=
  | Mkdir (path : string)
  | Transform (in_path out_path : string) (oa ta : Z)
  | Say (m : Msg).

Definition is_transform (s : step) : bool :=
  match s with Transform _ _ _ _ => true | _ => false end.

Definition is_png (name : string) : bool := endswith (lower name) ".png".

Definition file_steps (in_dir out_dir : string) (oa ta : Z)
    (name : string) : list step :=
  if is_png name
  then [Transform (path_join in_dir name) (path_join out_dir name) oa ta]
  else [].

(** Number of files to transform. *)
Definition files_of (p : list step) : Z :=
  Z.of_nat (length (filter (λ s, is_transform s) p)).

Section Driver.
Variable fs : FileSystem.

Definition GFX : string := path_join (ROOT fs) "graphics".

Definition EDGES_IN : string := path_join (path_join GFX "base") "edge".
Definition CORNERS_IN : string := path_join (path_join GFX "base") "corner".
Definition CENTERS_IN : string := path_join (path_join GFX "base") "center".
Definition BORDER_IN : string :=
  path_join (path_join GFX "base") "chart-border.png".

Definition variant_root (tag : string) : string := path_join GFX tag.
Definition edges_out_dir (tag : string) : string :=
  path_join (variant_root tag) "edge".
Definition corners_out_dir (tag : string) : string :=
  path_join (variant_root tag) "corner".
Definition centers_out_dir (tag : string) : string :=
  path_join (variant_root tag) "center".
Definition border_out_path (tag : string) : string :=
  path_join (variant_root tag) "chart-border.png".

(** [print(line)]: the line is written, or [print] raises. *)
Definition print (m : Msg) : IO unit :=
  λ w, match print_exn fs m with
       | None => (Ok (), mkWorld (saved w) (stdout w ++ [m]) (opened w))
       | Some e => (Raise e, w)
       end.

Definition ensure_dir (path : string) : IO unit :=
  lift (if can_mkdir fs path then Ok () else Raise OSError).

(** [Image.open(in_path).convert("RGBA")] *)
Definition Image_open (in_path : string) : IO Image :=
  λ w, (open_rgba fs in_path,
        mkWorld (saved w) (stdout w) (opened w ++ [in_path])).

(** [ensure_dir(os.path.dirname(out_path)); out.save(out_path)] *)
Definition save (out : Image) (out_path : string) : IO unit :=
  λ w, if can_save fs out_path
       then (Ok (),
             mkWorld (saved w ++ [(out_path, out)]) (stdout w) (opened w))
       else (Raise OSError, w).

Definition transform_image (in_path out_path : string)
    (opaque_alpha transparent_alpha : Z) : IO unit :=
  img ← Image_open in_path;
  r ← lift (remap img opaque_alpha transparent_alpha);
  let '(out, changed, (high_mode, low_mode)) := r in
  _ ← save out out_path;
  print (Processed in_path out_path changed high_mode low_mode
           (Z.min opaque_alpha transparent_alpha)).

Definition process_folder (in_dir out_dir : string)
    (opaque_alpha transparent_alpha : Z) : IO Z :=
  if negb (isdir fs in_dir) then
    _ ← print (Skip_missing in_dir);
    mret 0
  else
    _ ← ensure_dir out_dir;
    io_for (listdir fs in_dir) (λ name count,
      if negb (endswith (lower name) ".png") then mret count
      else
        let src := path_join in_dir name in
        let dst := path_join out_dir name in
        _ ← transform_image src dst opaque_alpha transparent_alpha;
        mret (count + 1)) 0.

Definition main : IO Z :=
  total ← io_for VARIANTS (λ v total,
    let oa := round (255 * opaque_alpha v) in
    let ta := round (255 * transparent_alpha v) in
    n ← process_folder EDGES_IN (edges_out_dir (tag v)) oa ta;
    let total := total + n in
    n ← process_folder CORNERS_IN (corners_out_dir (tag v)) oa ta;
    let total := total + n in
    n ← process_folder CENTERS_IN (centers_out_dir (tag v)) oa ta;
    let total := total + n in
    if isfile fs BORDER_IN then
      _ ← transform_image BORDER_IN (border_out_path (tag v)) oa ta;
      mret (total + 1)
    else mret total) 0;
  _ ← print (Done total (length VARIANTS));
  mret 0.

(** [sys.exit(main())]: the exit status is the value returned, or 1 when
    an exception reaches the top level. *)
Definition script (w : World) : Z * World :=
  match main w with
  | (Ok status, w') => (status, w')
  | (Raise _, w') => (1, w')
  end.

(** *** The batch as a list of steps

    The calls the script sets out to make, in the order it makes them:
    the output folders it creates, the files it transforms and the lines
    it prints itself. *)

Definition folder_plan (in_dir out_dir : string) (oa ta : Z) : list step :=
  if isdir fs in_dir
  then Mkdir out_dir
       :: mjoin (file_steps in_dir out_dir oa ta <$> listdir fs in_dir)
  else [Say (Skip_missing in_dir)].

Definition variant_plan (v : Variant) : list step :=
  let oa := round (255 * opaque_alpha v) in
  let ta := round (255 * transparent_alpha v) in
  folder_plan EDGES_IN (edges_out_dir (tag v)) oa ta
  ++ folder_plan CORNERS_IN (corners_out_dir (tag v)) oa ta
  ++ folder_plan CENTERS_IN (centers_out_dir (tag v)) oa ta
  ++ (if isfile fs BORDER_IN
      then [Transform BORDER_IN (border_out_path (tag v)) oa ta]
      else []).

Definition batch : list step := mjoin (variant_plan <$> VARIANTS).

Definition plan : list step :=
  batch ++ [Say (Done (files_of batch) (length VARIANTS))].

(** A step is the call it stands for. *)
Definition run_step (s : step) : IO unit :=
  match s with
  | Mkdir d => ensure_dir d
  | Transform in_path out_path oa ta => transform_image in_path out_path oa ta
  | Say m => print m
  end.

(** Whether the call returns, and what it leaves behind, returning or
    not.  A step that fails may have saved its file before: in
    [transform_image], [print] comes after [out.save]. *)
Definition step_ok (s : step) : bool :=
  match (run_step s world0).1 with Ok _ => true | Raise _ => false end.

Definition step_files (s : step) : list (string * Image) :=
  saved (run_step s world0).2.

Definition step_lines (s : step) : list Msg := stdout (run_step s world0).2.

Definition step_reads (s : step) : list string := opened (run_step s world0).2.

Definition all_ok (p : list step) : bool := forallb step_ok p.

(** The steps that are started: those up to the first one that fails,
    that one included. *)
Fixpoint started (p : list step) : list step :=
  match p with
  | [] => []
  | s :: p' => s :: (if step_ok s then started p' else [])
  end.

Definition outputs (p : list step) : list (string * Image) :=
  mjoin (step_files <$> p).

Definition lines (p : list step) : list Msg := mjoin (step_lines <$> p).

Definition reads (p : list step) : list string := mjoin (step_reads <$> p).

(** The world after the steps [p] have been started in the world [w]. *)
Definition after (w : World) (p : list step) : World :=
  mkWorld (saved w ++ outputs p) (stdout w ++ lines p) (opened w ++ reads p).

(** [m] carries out the steps [p]: it returns, with a value satisfying
    [post], exactly when every step succeeds; it stops at the first step
    that fails. *)
Definition refines {A : Type} (p : list step) (post : A → Prop) (m : IO A)
  : Prop :=
  ∀ w, match m w with
       | (Ok a, w') => all_ok p = true ∧ post a ∧ w' = after w p
       | (Raise _, w') => all_ok p = false ∧ w' = after w (started p)
       end.
End Driver.

(** ** Well-formed inputs and the vocabulary of the specification *)

(** Every channel is an 8-bit value. *)
Definition channel_ok (v : Z) : Prop := 0 ≤ v ≤ 255.

Definition pixel_ok (p : Pixel) : Prop :=
  channel_ok (red p) ∧ channel_ok (green p) ∧ channel_ok (blue p)
  ∧ channel_ok (alpha p).

(** What the decoder hands over: [width * height] 8-bit RGBA pixels. *)
Definition image_ok (img : Image) : Prop :=
  length (data img) = ((size img).2 * (size img).1)%nat
  ∧ Forall pixel_ok (data img).

(** Number of pixels of alpha [v]. *)
Definition alpha_count (v : Z) (l : list Pixel) : Z :=
  Z.of_nat (length (filter (λ p, alpha p = v) l)).

(** [v] is a non-zero alpha value of the image. *)
Definition nonzero_alpha (img : Image) (v : Z) : Prop :=
  v > 0 ∧ ∃ p, p ∈ data img ∧ alpha p = v.

(** [u] is preferred to [v] by the detector: more pixels, or as many and a
    larger alpha. *)
Definition outranks (img : Image) (u v : Z) : Prop :=
  alpha_count u (data img) > alpha_count v (data img)
  ∨ (alpha_count u (data img) = alpha_count v (data img) ∧ u > v).

(** The per-pixel rule of the remapper, as a function of the pixel. *)
Definition remap_alpha (high_mode low_mode : option Z)
    (opaque_alpha transparent_alpha : Z) (a : Z) : Z :=
  if none_or_zero low_mode && bool_decide (a > 0)
  then Z.min opaque_alpha transparent_alpha
  else if is_mode high_mode a then opaque_alpha
  else if is_mode low_mode a then transparent_alpha
  else a.

Definition remap_pixel (high_mode low_mode : option Z)
    (opaque_alpha transparent_alpha : Z) (p : Pixel) : Pixel :=
  (red p, green p, blue p,
   remap_alpha high_mode low_mode opaque_alpha transparent_alpha (alpha p)).

(** A remapping rule (one of the three branches that write a target alpha)
    applies to alpha [a]. *)
Definition rule_applies (high_mode low_mode : option Z) (a : Z) : bool :=
  (none_or_zero low_mode && bool_decide (a > 0))
  || is_mode high_mode a || is_mode low_mode a.

(** Number of pixels whose alpha differs between two pixel lists. *)
Definition alpha_diff_count (l l' : list Pixel) : Z :=
  Z.of_nat (length (filter (λ pq : Pixel * Pixel, alpha pq.1 ≠ alpha pq.2)
                      (zip l l'))).

(** What the histogram loop has computed after the pixels [l]. *)
Definition hist_of (l : list Pixel) (hist : list Z) : Prop :=
  length hist = 256%nat
  ∧ hist !! 0%nat = Some 0
  ∧ ∀ v, 0 < v ≤ 255 → hist !! Z.to_nat v = Some (alpha_count v l).

(** [t] is a histogram entry [(a, c)] of a non-zero alpha that occurs. *)
Definition entry (l : list Pixel) (t : Z * Z) : Prop :=
  0 < t.1 ≤ 255 ∧ t.2 = alpha_count t.1 l ∧ t.2 > 0.

(** The result of lines 106-111 on the sorted list. *)
Definition modes_of_sorted (s : list (Z * Z)) : option Z * option Z :=
  match s with
  | [] => (None, None)
  | [t] => (Some t.1, None)
  | t0 :: t1 :: _ => (Some (Z.max t0.1 t1.1), Some (Z.min t0.1 t1.1))
  end.

(** Number of pixels a remapping rule applies to. *)
Definition applied_count (high_mode low_mode : option Z) (l : list Pixel) : Z :=
  Z.of_nat
    (length (filter (λ p, rule_applies high_mode low_mode (alpha p)) l)).

(** ** Sample inputs *)

Definition img2x1 : Image :=
  mkImage (2%nat, 1%nat) [(255, 0, 0, 102); (0, 255, 0, 38)].

(** Only alpha values 0 and 200. *)
Definition img_single : Image :=
  mkImage (2%nat, 2%nat)
    [(1, 2, 3, 200); (4, 5, 6, 0); (7, 8, 9, 200); (0, 0, 0, 0)].

(** Fully transparent. *)
Definition img_clear : Image :=
  mkImage (2%nat, 1%nat) [(10, 20, 30, 0); (40, 50, 60, 0)].

(** Three non-zero alpha values: 50 and 90 twice each, 200 once. *)
Definition img_three : Image :=
  mkImage (3%nat, 2%nat)
    [(1, 1, 1, 50); (2, 2, 2, 200); (3, 3, 3, 90);
     (4, 4, 4, 90); (5, 5, 5, 0); (6, 6, 6, 50)].

(** An edge folder with two PNG files and a text file; no corner or
    center folder and no border file.  Every image opens. *)
Definition fs_good : FileSystem :=
  mkFS "/mod"
    (λ d, String.eqb d "/mod/graphics/base/edge")
    (λ _, ["a.png"; "notes.txt"; "b.PNG"])
    (λ _, false)
    (λ _, Ok img2x1)
    (λ _, true)
    (λ _, true)
    (λ _, None).

(** The same, but [a.png] is corrupt. *)
Definition fs_corrupt : FileSystem :=
  mkFS "/mod"
    (λ d, String.eqb d "/mod/graphics/base/edge")
    (λ _, ["a.png"; "notes.txt"; "b.PNG"])
    (λ _, false)
    (λ p, if String.eqb p "/mod/graphics/base/edge/a.png"
          then Raise OSError else Ok img2x1)
    (λ _, true)
    (λ _, true)
    (λ _, None).

(** The same, but [b.PNG] is corrupt. *)
Definition fs_corrupt_second : FileSystem :=
  mkFS "/mod"
    (λ d, String.eqb d "/mod/graphics/base/edge")
    (λ _, ["a.png"; "notes.txt"; "b.PNG"])
    (λ _, false)
    (λ p, if String.eqb p "/mod/graphics/base/edge/b.PNG"
          then Raise OSError else Ok img2x1)
    (λ _, true)
    (λ _, true)
    (λ _, None).

(** No edge folder; a corner folder with one PNG file; no center folder
    and no border file. *)
Definition fs_corner_only : FileSystem :=
  mkFS "/mod"
    (λ d, String.eqb d "/mod/graphics/base/corner")
    (λ _, ["c.png"])
    (λ _, false)
    (λ _, Ok img_single)
    (λ _, true)
    (λ _, true)
    (λ _, None).

(** As [fs_good], but stdout cannot encode the [Processed] lines. *)
Definition fs_unprintable : FileSystem :=
  mkFS "/mod"
    (λ d, String.eqb d "/mod/graphics/base/edge")
    (λ _, ["a.png"; "notes.txt"; "b.PNG"])
    (λ _, false)
    (λ _, Ok img2x1)
    (λ _, true)
    (λ _, true)
    (λ m, match m with
          | Processed _ _ _ _ _ _ => Some UnicodeEncodeError
          | _ => None
          end).

(** ** The two claims the code does not meet, as stated *)

(** C5, as the specification states it: the diagnostic count is the
    number of pixels whose output alpha differs from the input alpha. *)
Definition count_is_alpha_changes : Prop :=
  ∀ img oa ta out changed modes,
    image_ok img → channel_ok oa → channel_ok ta →
    remap img oa ta = Ok (out, changed, modes) →
    changed = alpha_diff_count (data img) (data out).

(** C4, as the specification states it: a failing step makes the exit
    status non-zero, and every other step that can succeed is still
    carried out, so its files are saved. *)
Definition failures_isolated : Prop :=
  ∀ fs w,
    ((∃ s, s ∈ plan fs ∧ step_ok fs s = false) → (script fs w).1 ≠ 0)
    ∧ (∀ s f, s ∈ plan fs → step_ok fs s = true → f ∈ step_files fs s →
              f ∈ saved (script fs w).2).

(** ** Vocabulary for the batch driver *)

(** The path a step writes, and the path it reads. *)
Definition out_paths (p : list step) : list string :=
  s ← p; match s with Transform _ o _ _ => [o] | _ => [] end.

Definition in_paths (p : list step) : list string :=
  s ← p; match s with Transform i _ _ _ => [i] | _ => [] end.

(** The output paths announced by the [Processed] lines. *)
Definition processed_paths (ms : list Msg) : list string :=
  m ← ms; match m with Processed _ o _ _ _ _ => [o] | _ => [] end.

(** Number of [.png] entries of an input folder; 0 when it is missing. *)
Definition png_count (fs : FileSystem) (dir : string) : Z :=
  if isdir fs dir
  then Z.of_nat (length (filter (λ name, is_png name) (listdir fs dir)))
  else 0.

(** Number of input files of the batch. *)
Definition input_count (fs : FileSystem) : Z :=
  png_count fs (EDGES_IN fs) + png_count fs (CORNERS_IN fs)
  + png_count fs (CENTERS_IN fs)
  + (if isfile fs (BORDER_IN fs) then 1 else 0).

(** [f] is what [transform_image] saves for the entry [name] of [in_dir]. *)
Definition transformed (fs : FileSystem) (in_dir out_dir : string)
    (oa ta : Z) (name : string) (f : string * Image) : Prop :=
  f.1 = path_join out_dir name
  ∧ ∃ img changed modes,
      open_rgba fs (path_join in_dir name) = Ok img
      ∧ remap img oa ta = Ok (f.2, changed, modes).

(** A path with something to append to: not empty, no separator at its
    end. *)
Definition plain (a : string) : Prop :=
  a ≠ EmptyString ∧ endswith a "/" = false.

(** A name to append: relative, not empty, no separator at its end. *)
Definition segment (s : string) : bool :=
  negb (startswith s "/") && negb (String.eqb s EmptyString)
  && negb (endswith s "/").

(** The three kinds of input folder. *)
Definition KINDS : list string := ["edge"; "corner"; "center"].

(** A step that prints no [Processed] line of its own. *)
Definition quiet (s : step) : Prop :=
  match s with Say (Processed _ _ _ _ _ _) => False | _ => True end.

(** ** Further sample inputs *)

(** The pixels of [img_three] in another order, in another shape and with
    other colours. *)
Definition img_three_shuffled : Image :=
  mkImage (2%nat, 3%nat)
    [(0, 0, 0, 90); (9, 9, 9, 50); (7, 7, 7, 0);
     (8, 8, 8, 50); (1, 2, 3, 200); (4, 5, 6, 90)].

(** ** The icon exporter (graphics/export_icons.py) *)

Module ExportIcons.

(** How spawning a command can fail. *)
Inductive spawn_error : Type :=
  | TimeoutExpired
  | FileNotFoundError
  | OtherError.           (* any other exception of [subprocess.run] *)

(** How printing a line can fail. *)
Inductive print_error : Type :=
  | BrokenPipeError        (* stdout is closed *)
  | UnicodeEncodeError.    (* stdout cannot encode the line *)

Inductive exn : Type :=
  | SpawnError (e : spawn_error)
  | PrintError (e : print_error)
  | SystemExit (code : Z).

Inductive outcome (A : Type) : Type :=
  | Return (a : A)
  | Throw (e : exn).
Arguments Return {A} a.
Arguments Throw {A} e.

(** What [subprocess.run(..., capture_output=True, text=True)] returns. *)
Record CompletedProcess : Type := mkCompleted {
  returncode : Z;
  stderr : string;
}.

(** The lines the script prints, before formatting. *)
Inductive Msg : Type :=
  | Exporting (output_file : string) (dpi : nat)
  | Error_exporting (output_file : string)
  | Stderr (text : string)
  | Created (output_file : string)
  | Svg_not_found (svg_file : string)
  | Inkscape_not_found
  | Please_install
  | Using_inkscape (inkscape_path : string)
  | Source (svg_file : string)
  | Completed (success_count total : nat).

(** What the script meets in its environment: [Path.home()], the folder
    of the script, the [/] of [pathlib] followed by [str], [Path.exists],
    how a command ends when it is spawned, and how [print] fails on a
    line, if it does (the [Created] line starts with U+2713, which not
    every console encodes). *)
Record Env : Type := mkEnv {
  home : string;
  script_dir : string;
  div : string → string → string;
  path_exists : string → bool;
  run_result : list string → CompletedProcess + spawn_error;
  print_exn : Msg → option print_error;
}.

(** The lines printed and the commands spawned, oldest first. *)
Record World : Type := mkWorld {
  stdout : list Msg;
  spawned : list (list string);
}.

Definition M (A : Type) : Type := World → outcome A * World.

#[export] Instance M_ret : MRet M := λ A a w, (Return a, w).
#[export] Instance M_bind : MBind M :=
  λ A B f m w,
    match m w with
    | (Return a, w') => f a w'
    | (Throw e, w') => (Throw e, w')
    end.

(** [sys.exit(code)] *)
Definition sys_exit {A : Type} (code : Z) : M A :=
  λ w, (Throw (SystemExit code), w).

Fixpoint for_ {A S : Type} (xs : list A) (body : A → S → M S) (s : S) : M S :=
  match xs with
  | [] => mret s
  | x :: xs' => s' ← body x s; for_ xs' body s'
  end.

Section Script.
Variable env : Env.

(** [print(line)]: the line is written, or [print] raises. *)
Definition print (m : Msg) : M unit :=
  λ w, match print_exn env m with
       | None => (Return (), mkWorld (stdout w ++ [m]) (spawned w))
       | Some e => (Throw (PrintError e), w)
       end.

(** [subprocess.run(cmd, ...)] *)
Definition run (cmd : list string) : M CompletedProcess :=
  λ w, (match run_result env cmd with
        | inl result => Return result
        | inr e => Throw (SpawnError e)
        end,
        mkWorld (stdout w) (spawned w ++ [cmd])).

Definition possible_paths : list string :=
  [ "C:\Program Files\Inkscape\bin\inkscape.exe";
    "C:\Program Files (x86)\Inkscape\bin\inkscape.exe";
    div env (div env (div env (div env (div env (div env (home env)
      "AppData") "Local") "Programs") "Inkscape") "bin") "inkscape.exe" ].

Definition find_inkscape : M (option string) :=
  match List.find (path_exists env) possible_paths with
  | Some path => mret (Some path)
  | None =>
      (* try: ... except (subprocess.TimeoutExpired, FileNotFoundError) *)
      λ w, match run ["inkscape"; "--version"] w with
           | (Return result, w') =>
               if bool_decide (returncode result = 0)
               then (Return (Some "inkscape"), w')
               else (Return None, w')
           | (Throw (SpawnError TimeoutExpired), w') => (Return None, w')
           | (Throw (SpawnError FileNotFoundError), w') => (Return None, w')
           | (Throw e, w') => (Throw e, w')
           end
  end.

Definition export_cmd (inkscape_path svg_file output_file : string)
    (dpi : nat) : list string :=
  [ inkscape_path;
    "--export-type=png";
    "--export-area-page";
    "--export-dpi=" +:+ pretty dpi;
    "--export-filename=" +:+ output_file;
    svg_file ].

Definition export_svg_to_png (inkscape_path svg_file output_file : string)
    (dpi : nat) : M bool :=
  let cmd := export_cmd inkscape_path svg_file output_file dpi in
  _ ← print (Exporting output_file dpi);
  result ← run cmd;
  if bool_decide (returncode result ≠ 0) then
    _ ← print (Error_exporting output_file);
    _ ← print (Stderr (stderr result));
    mret false
  else
    _ ← print (Created output_file);
    mret true.

Definition exports : list (nat * string) :=
  [ (24%nat, "icons-16.png"); (48%nat, "icons-32.png");
    (96%nat, "icons-64.png") ].

(** [not inkscape_path]: [None] and the empty string are false. *)
Definition falsy (p : option string) : bool :=
  match p with None => true | Some s => bool_decide (s = "") end.

Definition main : M unit :=
  let icons_dir := div env (script_dir env) "icons" in
  let svg_file := div env icons_dir "icons.svg" in
  if negb (path_exists env svg_file) then
    _ ← print (Svg_not_found svg_file);
    sys_exit 1
  else
    inkscape_path ← find_inkscape;
    if falsy inkscape_path then
      _ ← print Inkscape_not_found;
      _ ← print Please_install;
      sys_exit 1
    else
      let inkscape_path := default "" inkscape_path in
      _ ← print (Using_inkscape inkscape_path);
      _ ← print (Source svg_file);
      success_count ← for_ exports (λ '(dpi, filename) success_count,
        let output_file := div env icons_dir filename in
        ok ← export_svg_to_png inkscape_path svg_file output_file dpi;
        if ok : bool then mret (success_count + 1)%nat
        else mret success_count) 0%nat;
      _ ← print (Completed success_count (length exports));
      if bool_decide (success_count < length exports)%nat then sys_exit 1
      else mret ().

(** The exit status of the process: 0 when [main] returns, the code of
    [sys.exit], 1 for any other exception. *)
Definition script (w : World) : Z * World :=
  match main w with
  | (Return _, w') => (0, w')
  | (Throw (SystemExit code), w') => (code, w')
  | (Throw _, w') => (1, w')
  end.
(** *** Vocabulary for the properties *)

Definition icons_dir : string := div env (script_dir env) "icons".

Definition svg_file : string := div env icons_dir "icons.svg".

(** The command spawned for one entry [(dpi, filename)] of [exports]. *)
Definition export_cmd_of (ink : string) (e : nat * string) : list string :=
  export_cmd ink svg_file (div env icons_dir e.2) e.1.

(** The command returns, whatever its return code. *)
Definition export_returns (ink : string) (e : nat * string) : bool :=
  match run_result env (export_cmd_of ink e) with
  | inl _ => true
  | inr _ => false
  end.

(** The command returns with return code 0. *)
Definition export_succeeds (ink : string) (e : nat * string) : bool :=
  match run_result env (export_cmd_of ink e) with
  | inl c => bool_decide (returncode c = 0)
  | inr _ => false
  end.

(** The body of the loop of [main]. *)
Definition export_body (ink : string) (e : nat * string)
    (success_count : nat) : M nat :=
  let '(dpi, filename) := e in
  let output_file := div env icons_dir filename in
  ok ← export_svg_to_png ink svg_file output_file dpi;
  if ok : bool then mret (success_count + 1)%nat
  else mret success_count.

(** Every line can be printed. *)
Definition stdout_ok : Prop := ∀ m, print_exn env m = None.

End Script.

(** A POSIX-like environment for the examples: Inkscape is found on the
    PATH, and the 48 DPI export fails. *)
Definition env_path : Env :=
  mkEnv "/home/u" "/repo/graphics"
    (λ a b, a +:+ "/" +:+ b)
    (λ p, String.eqb p "/repo/graphics/icons/icons.svg")
    (λ cmd, if bool_decide (cmd !! 3%nat = Some "--export-dpi=48")
            then inl (mkCompleted 1 "boom")
            else inl (mkCompleted 0 ""))
    (λ _, None).


(** The same, but the console cannot encode the [Created] lines. *)
Definition env_ascii_console : Env :=
  mkEnv "/home/u" "/repo/graphics"
    (λ a b, a +:+ "/" +:+ b)
    (λ p, String.eqb p "/repo/graphics/icons/icons.svg")
    (λ _, inl (mkCompleted 0 EmptyString))
    (λ m, match m with
          | Created _ => Some UnicodeEncodeError
          | _ => None
          end).

(** Inkscape is installed under [Program Files (x86)] only. *)
Definition env_installed : Env :=
  mkEnv "C:\Users\u" "C:\repo\graphics"
    (λ a b, a +:+ "\" +:+ b)
    (λ p, String.eqb p "C:\Program Files (x86)\Inkscape\bin\inkscape.exe")
    (λ _, inr FileNotFoundError)
    (λ _, None).

Definition world0 : World := mkWorld [] [].

End ExportIcons.

(** * Examples *)

Example detect_img2x1 : _detect_alpha_modes img2x1 = Ok (Some 102, Some 38).
Proof. vm_compute. reflexivity. Qed.

Example remap_identity :
  remap img2x1 102 38 = Ok (img2x1, 2, (Some 102, Some 38)).
Proof. vm_compute. reflexivity. Qed.

Example variant_targets :
  (λ v, (round (255 * opaque_alpha v), round (255 * transparent_alpha v)))
    <$> VARIANTS
  = [(102, 38); (51, 19); (26, 64)].
Proof. vm_compute. reflexivity. Qed.

Example remap_swapped :
  remap img2x1 26 64
  = Ok (mkImage (2%nat, 1%nat) [(255, 0, 0, 26); (0, 255, 0, 64)], 2,
        (Some 102, Some 38)).
Proof. vm_compute. reflexivity. Qed.

(** * Properties *)

Ltac solve_image_ok :=
  split; [reflexivity | repeat constructor; cbn; lia].


(** ** Loops *)

Lemma for_seq_inv {S : Type} (P : nat → S → Prop)
    (body : nat → S → result S) (n a : nat) (s : S) :
  P a s →
  (∀ i s, (a ≤ i < a + n)%nat → P i s →
          ∃ s', body i s = Ok s' ∧ P (Datatypes.S i) s') →
  ∃ s', for_ (seq a n) body s = Ok s' ∧ P (a + n)%nat s'.
Proof.
  revert a s. induction n as [|n IH]; intros a s Ha Hstep; simpl.
  - exists s. by rewrite Nat.add_0_r.
  - destruct (Hstep a s) as (s1 & -> & H1); [lia | done |]. simpl.
    destruct (IH (Datatypes.S a) s1) as (s2 & -> & H2); [done | |].
    + intros i s' Hi. apply Hstep. lia.
    + exists s2. split; [done |]. by rewrite <- Nat.add_succ_comm.
Qed.

(** The two nested loops over the rows and columns visit the pixels in
    the order of [data]. *)
Lemma for_grid_inv {S : Type} (P : nat → S → Prop)
    (body : nat * nat → S → result S) (w h : nat) (s : S) :
  P 0%nat s →
  (∀ x y s, (x < w)%nat → (y < h)%nat → P (y * w + x)%nat s →
            ∃ s', body (x, y) s = Ok s' ∧ P (Datatypes.S (y * w + x)) s') →
  ∃ s', for_ (range h) (λ y s, for_ (range w) (λ x s, body (x, y) s) s) s
        = Ok s'
        ∧ P (h * w)%nat s'.
Proof.
  intros H0 Hstep.
  destruct (for_seq_inv (λ y s, P (y * w)%nat s)
              (λ y s, for_ (range w) (λ x s, body (x, y) s) s) h 0 s)
    as (s' & Hs' & HP); [done | | by exists s'].
  intros y s1 Hy Hs1.
  destruct (for_seq_inv (λ x s, P (y * w + x)%nat s)
              (λ x s, body (x, y) s) w 0 s1) as (s2 & Hs2 & HP2).
  - by rewrite Nat.add_0_r.
  - intros x s2 Hx Hs2.
    destruct (Hstep x y s2) as (s3 & ? & ?); [lia | lia | done |].
    exists s3. split; [done |]. by rewrite Nat.add_succ_r.
  - exists s2. split; [done |].
    by replace (Datatypes.S y * w)%nat with (y * w + (0 + w))%nat by lia.
Qed.

Lemma for_ext {A S : Type} (xs : list A) (f g : A → S → result S) (s : S) :
  (∀ x s, x ∈ xs → f x s = g x s) → for_ xs f s = for_ xs g s.
Proof.
  revert s. induction xs as [|x xs IH]; intros s Hfg; [done |]. simpl.
  rewrite Hfg by apply list_elem_of_here. destruct (g x s); simpl; [| done].
  apply IH. intros y s' Hy. apply Hfg. by apply list_elem_of_further.
Qed.

(** ** Pixel access on well-formed images *)

Lemma getpixel_ok img w h x y :
  size img = (w, h) → length (data img) = (h * w)%nat →
  (x < w)%nat → (y < h)%nat →
  ∃ p, data img !! (y * w + x)%nat = Some p ∧ getpixel img (x, y) = Ok p.
Proof.
  intros Hsz Hlen Hx Hy.
  destruct (lookup_lt_is_Some_2 (data img) (y * w + x)) as [p Hp]; [nia |].
  exists p. split; [done |]. unfold getpixel, pixel_index. rewrite Hsz. simpl.
  rewrite bool_decide_eq_true_2 by done. by rewrite Hp.
Qed.

Lemma putpixel_ok out w h x y p :
  size out = (w, h) → length (data out) = (h * w)%nat →
  (x < w)%nat → (y < h)%nat →
  putpixel out (x, y) p
  = Ok (mkImage (w, h) (<[(y * w + x)%nat := clip_pixel p]> (data out))).
Proof.
  intros Hsz Hlen Hx Hy.
  destruct (lookup_lt_is_Some_2 (data out) (y * w + x)) as [q Hq]; [nia |].
  unfold putpixel, pixel_index. rewrite Hsz. simpl.
  rewrite bool_decide_eq_true_2 by done. by rewrite Hq.
Qed.

(** ** The histogram *)

Lemma alpha_count_snoc v l p :
  alpha_count v (l ++ [p])
  = alpha_count v l + (if bool_decide (alpha p = v) then 1 else 0).
Proof.
  unfold alpha_count. rewrite filter_app, length_app.
  rewrite Nat2Z.inj_add. f_equal.
  cbn. unfold filter. cbn. case_decide; by rewrite ?bool_decide_eq_true_2,
    ?bool_decide_eq_false_2 by done.
Qed.

Lemma alpha_count_nonneg v l : 0 ≤ alpha_count v l.
Proof. unfold alpha_count. lia. Qed.

Lemma alpha_count_pos v l :
  alpha_count v l > 0 ↔ ∃ p, p ∈ l ∧ alpha p = v.
Proof.
  unfold alpha_count. split.
  - intros Hpos. destruct (filter (λ p, alpha p = v) l) as [|p l'] eqn:E.
    + simpl in Hpos. lia.
    + assert (p ∈ filter (λ p, alpha p = v) l) as Hp
        by (rewrite E; apply list_elem_of_here).
      apply list_elem_of_filter in Hp. destruct Hp. eauto.
  - intros (p & Hp & Hv).
    assert (p ∈ filter (λ p, alpha p = v) l) as Hin
      by (by apply list_elem_of_filter).
    destruct (filter (λ p, alpha p = v) l); [by apply elem_of_nil in Hin |].
    simpl. lia.
Qed.

Lemma hist_of_nil : hist_of [] (replicate 256 0).
Proof.
  split; [by rewrite length_replicate |]. split; [done |].
  intros v Hv. rewrite lookup_replicate_2 by lia. done.
Qed.

Lemma hist_of_skip l p hist :
  hist_of l hist → ¬ alpha p > 0 → hist_of (l ++ [p]) hist.
Proof.
  intros (Hlen & H0 & Hc) Hp. split; [done |]. split; [done |].
  intros v Hv. rewrite alpha_count_snoc, bool_decide_eq_false_2 by lia.
  rewrite Z.add_0_r. by apply Hc.
Qed.

Lemma hist_of_incr l p hist :
  hist_of l hist → 0 < alpha p ≤ 255 →
  ∃ hist', hist_incr hist (alpha p) = Ok hist' ∧ hist_of (l ++ [p]) hist'.
Proof.
  intros (Hlen & H0 & Hc) Hp. unfold hist_incr. rewrite (Hc _ Hp).
  eexists. split; [done |]. split; [by rewrite length_insert |]. split.
  - rewrite list_lookup_insert_ne by lia. done.
  - intros v Hv. rewrite alpha_count_snoc.
    destruct (decide (alpha p = v)) as [-> | Hne].
    + rewrite list_lookup_insert_eq by lia.
      by rewrite bool_decide_eq_true_2.
    + rewrite list_lookup_insert_ne by lia.
      rewrite bool_decide_eq_false_2, Z.add_0_r by done. by apply Hc.
Qed.

Lemma alpha_hist_spec img :
  image_ok img → ∃ hist, alpha_hist img = Ok hist ∧ hist_of (data img) hist.
Proof.
  intros [Hlen Hpx]. unfold alpha_hist.
  destruct (size img) as [w h] eqn:Hsz. simpl in Hlen.
  destruct (for_grid_inv (λ k hist, hist_of (take k (data img)) hist)
              (λ xy hist, rgba ← getpixel img xy;
                 let a := alpha rgba in
                 if bool_decide (a > 0) then hist_incr hist a else Ok hist)
              w h (replicate 256 0)) as (hist & Hrun & Hinv).
  - rewrite take_0. apply hist_of_nil.
  - intros x y hist Hx Hy Hinv.
    destruct (getpixel_ok img w h x y) as (p & Hp & ->); [done.. |]. simpl.
    rewrite (take_S_r _ _ _ Hp).
    case_bool_decide as Ha.
    + apply hist_of_incr; [done |].
      apply list_elem_of_lookup_2 in Hp.
      rewrite Forall_forall in Hpx. destruct (Hpx p Hp) as (_ & _ & _ & ?).
      unfold channel_ok in *. lia.
    + exists hist. split; [done |]. by apply hist_of_skip.
  - exists hist. split; [done |]. by rewrite take_ge in Hinv by lia.
Qed.

(** ** Selecting the modes *)

#[local] Instance key_ge_trans : Transitive key_ge.
Proof. intros t u v. unfold key_ge, key_le. lia. Qed.

#[local] Instance key_ge_total : Total key_ge.
Proof. intros t u. unfold key_ge, key_le. lia. Qed.

#[local] Instance key_ge_antisymm : AntiSymm (=) key_ge.
Proof.
  intros [a c] [a' c']. unfold key_ge, key_le. cbn. intros H1 H2.
  f_equal; lia.
Qed.

Lemma NoDup_enumerate hist : NoDup (enumerate hist).
Proof.
  apply NoDup_alt. intros i j t. unfold enumerate.
  rewrite !list_lookup_imap. intros Hi Hj.
  destruct (hist !! i), (hist !! j); simplify_eq/=. lia.
Qed.

Lemma elem_of_non_zero l hist t :
  hist_of l hist →
  t ∈ filter (λ t : Z * Z, t.1 > 0 ∧ t.2 > 0) (enumerate hist) ↔ entry l t.
Proof.
  intros (Hlen & H0 & Hc). rewrite list_elem_of_filter. unfold enumerate, entry.
  rewrite elem_of_lookup_imap. split.
  - intros ([Ha Hcnt] & i & c & -> & Hi). simpl in *.
    assert (i < 256)%nat by (rewrite <- Hlen; by eapply lookup_lt_Some).
    specialize (Hc (Z.of_nat i)). rewrite Nat2Z.id, Hi in Hc.
    split; [lia |]. split; [| done].
    assert (Some c = Some (alpha_count (Z.of_nat i) l)) as [= ->]
      by (apply Hc; lia). done.
  - intros (Ha & Hcnt & Hpos). split; [lia |].
    exists (Z.to_nat t.1), t.2. split.
    + rewrite Z2Nat.id by lia. by destruct t.
    + rewrite Hcnt. by apply Hc.
Qed.

Lemma modes_of_hist_spec l hist :
  hist_of l hist →
  ∃ s, (∀ t, t ∈ s ↔ entry l t) ∧ NoDup s ∧ StronglySorted key_ge s
       ∧ modes_of_hist hist = Ok (modes_of_sorted s).
Proof.
  intros Hh. unfold modes_of_hist, sort_reverse.
  set (nz := filter (λ t : Z * Z, t.1 > 0 ∧ t.2 > 0) (enumerate hist)).
  assert (merge_sort key_ge nz ≡ₚ nz) as Hperm
    by apply merge_sort_Permutation.
  exists (merge_sort key_ge nz). split; [| split; [| split]].
  - intros t. rewrite Hperm. by apply elem_of_non_zero.
  - rewrite Hperm. apply NoDup_filter, NoDup_enumerate.
  - apply StronglySorted_merge_sort; apply _.
  - case_bool_decide as Hnil.
    + assert (merge_sort key_ge nz = []) as ->; [| done].
      apply Permutation_nil_r. by rewrite Hperm, Hnil.
    + destruct (merge_sort key_ge nz) as [|t0 [|t1 s]] eqn:Hs.
      * by apply Permutation_nil_l in Hperm.
      * done.
      * simpl. case_bool_decide.
        -- by rewrite Z.max_l, Z.min_r by lia.
        -- by rewrite Z.max_r, Z.min_l by lia.
Qed.

(** The detector on a well-formed image: it never raises, and its answer
    is read off the occurring non-zero alphas listed by decreasing
    (count, alpha). *)
Lemma detect_spec img :
  image_ok img →
  ∃ s, (∀ t, t ∈ s ↔ entry (data img) t) ∧ NoDup s ∧ StronglySorted key_ge s
       ∧ _detect_alpha_modes img = Ok (modes_of_sorted s).
Proof.
  intros Hok. destruct (alpha_hist_spec img Hok) as (hist & Hrun & Hh).
  destruct (modes_of_hist_spec _ _ Hh) as (s & ? & ? & ? & Hm).
  exists s. unfold _detect_alpha_modes. rewrite Hrun. simpl. by rewrite Hm.
Qed.

Lemma nonzero_alpha_entry img v :
  image_ok img →
  nonzero_alpha img v ↔ entry (data img) (v, alpha_count v (data img)).
Proof.
  intros [_ Hpx]. unfold nonzero_alpha, entry. simpl.
  rewrite alpha_count_pos. split.
  - intros (Hv & p & Hp & Ha). split; [| by eauto].
    rewrite Forall_forall in Hpx. destruct (Hpx p Hp) as (_ & _ & _ & ?).
    unfold channel_ok in *. lia.
  - intros (Hv & _ & Hex). split; [lia | done].
Qed.

Lemma entry_eq l t : entry l t → t = (t.1, alpha_count t.1 l).
Proof. intros (_ & Hc & _). destruct t; simpl in *. by rewrite Hc. Qed.

Lemma key_ge_outranks img t u :
  entry (data img) t → entry (data img) u → t.1 ≠ u.1 → key_ge t u →
  outranks img t.1 u.1.
Proof.
  intros (_ & Ht & _) (_ & Hu & _) Hne. unfold key_ge, key_le, outranks.
  rewrite <- Ht, <- Hu. lia.
Qed.

(** ** The remapping loop *)

Lemma applied_count_snoc hi lo l p :
  applied_count hi lo (l ++ [p])
  = applied_count hi lo l + (if rule_applies hi lo (alpha p) then 1 else 0).
Proof.
  unfold applied_count. rewrite filter_app, length_app, Nat2Z.inj_add.
  f_equal. unfold filter. cbn. by destruct (rule_applies hi lo (alpha p)).
Qed.

Lemma remap_step_spec img out hi lo oa ta w h x y p changed :
  size img = (w, h) → length (data img) = (h * w)%nat →
  size out = (w, h) → length (data out) = (h * w)%nat →
  (x < w)%nat → (y < h)%nat →
  data img !! (y * w + x)%nat = Some p →
  remap_step img hi lo oa ta (Z.min oa ta) (x, y) (out, changed)
  = Ok (mkImage (w, h)
          (<[(y * w + x)%nat := clip_pixel (remap_pixel hi lo oa ta p)]>
             (data out)),
        changed + (if rule_applies hi lo (alpha p) then 1 else 0)).
Proof.
  intros Hsz Hlen Hosz Holen Hx Hy Hp.
  destruct (getpixel_ok img w h x y) as (p' & Hp' & Hget); [done.. |].
  assert (p' = p) as -> by congruence.
  unfold remap_step. rewrite Hget. simpl.
  destruct p as [[[r g] b] a].
  unfold remap_pixel, remap_alpha, rule_applies, red, green, blue, alpha.
  simpl.
  destruct (none_or_zero lo && bool_decide (a > 0)); simpl;
    [| destruct (is_mode hi a); simpl; [| destruct (is_mode lo a); simpl]];
    rewrite (putpixel_ok out w h x y) by done; simpl;
    by rewrite ?Z.add_0_r.
Qed.

Lemma remap_loop_spec img hi lo oa ta w h :
  size img = (w, h) → length (data img) = (h * w)%nat →
  for_ (range h) (λ y st,
    for_ (range w) (λ x st,
      remap_step img hi lo oa ta (Z.min oa ta) (x, y) st) st)
    (Image_new (w, h), 0)
  = Ok (mkImage (w, h)
          ((λ p, clip_pixel (remap_pixel hi lo oa ta p)) <$> data img),
        applied_count hi lo (data img)).
Proof.
  intros Hsz Hlen.
  set (stored := λ p, clip_pixel (remap_pixel hi lo oa ta p)).
  destruct (for_grid_inv
    (λ k st, size st.1 = (w, h)
             ∧ data st.1 = (stored <$> take k (data img))
                           ++ replicate (h * w - k) (0, 0, 0, 0)
             ∧ st.2 = applied_count hi lo (take k (data img)))
    (remap_step img hi lo oa ta (Z.min oa ta)) w h (Image_new (w, h), 0))
    as ([out changed] & Hrun & Hosz & Hdata & Hch).
  - simpl. rewrite take_0, Nat.sub_0_r. done.
  - intros x y [out changed] Hx Hy (Hosz & Hdata & Hch).
    simpl in Hosz, Hdata, Hch.
    destruct (lookup_lt_is_Some_2 (data img) (y * w + x)) as [p Hp]; [nia |].
    assert (length (data out) = (h * w)%nat) as Holen.
    { rewrite Hdata, length_app, length_fmap, length_take, length_replicate.
      lia. }
    rewrite (remap_step_spec img out hi lo oa ta w h x y p) by done.
    eexists. split; [done |]. simpl. split; [done |].
    rewrite (take_S_r _ _ _ Hp), fmap_app, applied_count_snoc, Hch.
    split; [| done]. rewrite Hdata.
    set (k := (y * w + x)%nat) in *.
    assert (length (stored <$> take k (data img)) = k) as Hk.
    { rewrite length_fmap, length_take. nia. }
    rewrite <- Hk at 1.
    rewrite <- (Nat.add_0_r (length _)) at 1. rewrite insert_app_r.
    replace (h * w - k)%nat with (Datatypes.S (h * w - Datatypes.S k)) by nia.
    simpl. by rewrite <- app_assoc.
  - simpl in *. rewrite Hrun. f_equal.
    rewrite take_ge in Hdata, Hch by lia. subst changed.
    rewrite Nat.sub_diag in Hdata. simpl in Hdata. rewrite app_nil_r in Hdata.
    destruct out as [osz odata]. simpl in *. by subst.
Qed.

(** The remapper on a well-formed image, for any targets: it never
    raises, the output is the input with the per-pixel rule applied and
    the result clipped on storing, and the diagnostic counts the pixels a
    rule applies to. *)
Lemma remap_spec_clip img oa ta :
  image_ok img →
  ∃ hi lo,
    _detect_alpha_modes img = Ok (hi, lo)
    ∧ remap img oa ta
      = Ok (mkImage (size img)
              ((λ p, clip_pixel (remap_pixel hi lo oa ta p)) <$> data img),
            applied_count hi lo (data img), (hi, lo)).
Proof.
  intros Hok. destruct (detect_spec img Hok) as (s & _ & _ & _ & Hdet).
  destruct (modes_of_sorted s) as [hi lo]. exists hi, lo. split; [done |].
  unfold remap. rewrite Hdet. simpl.
  destruct Hok as [Hlen _]. destruct (size img) as [w h] eqn:Hsz.
  simpl in Hlen. by rewrite (remap_loop_spec img hi lo oa ta w h).
Qed.

Lemma clip8_ok v : channel_ok v → clip8 v = v.
Proof.
  unfold channel_ok, clip8. intros Hv.
  repeat case_bool_decide; lia.
Qed.

Lemma clip_pixel_ok p : pixel_ok p → clip_pixel p = p.
Proof.
  intros (Hr & Hg & Hb & Ha). unfold clip_pixel.
  rewrite !clip8_ok by done. by destruct p as [[[r g] b] a].
Qed.

Lemma clip_remap_pixel hi lo oa ta p :
  channel_ok oa → channel_ok ta → pixel_ok p →
  clip_pixel (remap_pixel hi lo oa ta p) = remap_pixel hi lo oa ta p.
Proof.
  intros Hoa Hta (Hr & Hg & Hb & Ha). apply clip_pixel_ok.
  split; [exact Hr |]. split; [exact Hg |]. split; [exact Hb |].
  change (channel_ok (remap_alpha hi lo oa ta (alpha p))).
  unfold remap_alpha, channel_ok in *.
  destruct (none_or_zero lo && bool_decide (alpha p > 0)); [lia |].
  destruct (is_mode hi (alpha p)); [lia |].
  destruct (is_mode lo (alpha p)); lia.
Qed.

(** With 8-bit targets nothing is clipped: the output is the input with
    the per-pixel rule applied. *)
Lemma remap_spec img oa ta :
  image_ok img → channel_ok oa → channel_ok ta →
  ∃ hi lo,
    _detect_alpha_modes img = Ok (hi, lo)
    ∧ remap img oa ta
      = Ok (mkImage (size img) (remap_pixel hi lo oa ta <$> data img),
            applied_count hi lo (data img), (hi, lo)).
Proof.
  intros Hok Hoa Hta.
  destruct (remap_spec_clip img oa ta Hok) as (hi & lo & Hdet & Hrun).
  exists hi, lo. split; [done |]. rewrite Hrun.
  enough ((λ p, clip_pixel (remap_pixel hi lo oa ta p)) <$> data img
          = remap_pixel hi lo oa ta <$> data img) as -> by done.
  apply list_fmap_ext. intros i p Hp%list_elem_of_lookup_2.
  apply clip_remap_pixel; [done | done |].
  destruct Hok as [_ Hpx]. rewrite Forall_forall in Hpx. by apply Hpx.
Qed.

(** ** What the detector answers *)

(** The three possible answers on a well-formed image. *)
Lemma detect_cases img :
  image_ok img →
  (_detect_alpha_modes img = Ok (None, None) ∧ ∀ v, ¬ nonzero_alpha img v)
  ∨ (∃ V, _detect_alpha_modes img = Ok (Some V, None)
          ∧ ∀ v, nonzero_alpha img v ↔ v = V)
  ∨ (∃ hi lo, _detect_alpha_modes img = Ok (Some hi, Some lo)
          ∧ lo < hi ∧ nonzero_alpha img hi ∧ nonzero_alpha img lo
          ∧ ∀ c, nonzero_alpha img c → c ≠ hi → c ≠ lo →
                 outranks img hi c ∧ outranks img lo c).
Proof.
  intros Hok. destruct (detect_spec img Hok) as (s & Hs & Hnd & Hsort & Hdet).
  assert (∀ v, nonzero_alpha img v ↔ (v, alpha_count v (data img)) ∈ s) as Hnz.
  { intros v. by rewrite Hs, nonzero_alpha_entry. }
  assert (∀ t, t ∈ s → nonzero_alpha img t.1) as Hin.
  { intros t Ht. apply Hnz. apply Hs in Ht as He.
    by rewrite <- (entry_eq _ _ He). }
  destruct s as [|t0 [|t1 s]]; simpl in Hdet.
  - left. split; [done |]. intros v Hv. apply Hnz in Hv.
    by apply elem_of_nil in Hv.
  - right. left. exists t0.1. split; [done |]. intros v. split.
    + intros Hv. apply Hnz, list_elem_of_singleton in Hv. by subst.
    + intros ->. apply Hin, list_elem_of_here.
  - right. right. exists (Z.max t0.1 t1.1), (Z.min t0.1 t1.1).
    split; [done |].
    assert (t0 ∈ t0 :: t1 :: s) as H0 by apply list_elem_of_here.
    assert (t1 ∈ t0 :: t1 :: s) as H1
      by apply list_elem_of_further, list_elem_of_here.
    assert (t0.1 ≠ t1.1) as Hne.
    { intros Heq. apply NoDup_cons in Hnd as [Hnotin _]. apply Hnotin.
      apply Hs in H0 as E0. apply Hs in H1 as E1.
      rewrite (entry_eq _ _ E0), Heq, <- (entry_eq _ _ E1).
      apply list_elem_of_here. }
    apply StronglySorted_inv in Hsort as [Hsort Hall0].
    apply StronglySorted_inv in Hsort as [_ Hall1].
    rewrite Forall_forall in Hall0, Hall1.
    assert (nonzero_alpha img t0.1 ∧ nonzero_alpha img t1.1) as [Hn0 Hn1]
      by (split; by apply Hin).
    assert (∀ c, nonzero_alpha img c → c ≠ t0.1 → c ≠ t1.1 →
                 outranks img t0.1 c ∧ outranks img t1.1 c) as Hrank.
    { intros c Hc Hc0 Hc1. apply Hnz in Hc as Hcs.
      apply elem_of_cons in Hcs as [Heq | Hcs]; [by subst t0 |].
      apply elem_of_cons in Hcs as [Heq | Hcs]; [by subst t1 |].
      set (u := (c, alpha_count c (data img))) in *.
      assert (entry (data img) u) as Hu
        by (apply Hs; by do 2 apply list_elem_of_further).
      split.
      - apply (key_ge_outranks img t0 u); [by apply Hs | done | done |].
        apply Hall0. by apply list_elem_of_further.
      - apply (key_ge_outranks img t1 u); [by apply Hs | done | done |].
        by apply Hall1. }
    destruct (Z.max_spec t0.1 t1.1) as [[? ->] | [? ->]];
      destruct (Z.min_spec t0.1 t1.1) as [[? ->] | [? ->]]; try lia;
      (split; [lia |]); (split; [done |]); (split; [done |]);
      intros c Hc ? ?; destruct (Hrank c) as [? ?]; done.
Qed.

Lemma detect_total img :
  image_ok img → ∃ hi lo, _detect_alpha_modes img = Ok (hi, lo).
Proof.
  intros Hok.
  destruct (detect_cases img Hok) as [[? _] | [(? & ? & _) | (? & ? & ? & _)]];
    eauto.
Qed.

Lemma nonzero_alpha_range img v :
  image_ok img → nonzero_alpha img v → 1 ≤ v ≤ 255.
Proof.
  intros Hok Hv. apply (nonzero_alpha_entry img v Hok) in Hv as [Hr _].
  simpl in Hr. lia.
Qed.

Lemma alpha_nonneg img p : image_ok img → p ∈ data img → 0 ≤ alpha p.
Proof.
  intros [_ Hpx] Hp. rewrite Forall_forall in Hpx.
  destruct (Hpx p Hp) as (_ & _ & _ & ?). unfold channel_ok in *. lia.
Qed.

(** ** The per-pixel rule *)

Lemma remap_pixel_rgb hi lo oa ta p :
  red (remap_pixel hi lo oa ta p) = red p
  ∧ green (remap_pixel hi lo oa ta p) = green p
  ∧ blue (remap_pixel hi lo oa ta p) = blue p.
Proof. done. Qed.

Lemma remap_pixel_alpha hi lo oa ta p :
  alpha (remap_pixel hi lo oa ta p) = remap_alpha hi lo oa ta (alpha p).
Proof. done. Qed.

Lemma remap_pixel_id hi lo oa ta p :
  remap_alpha hi lo oa ta (alpha p) = alpha p → remap_pixel hi lo oa ta p = p.
Proof.
  unfold remap_pixel. intros ->. by destruct p as [[[r g] b] a].
Qed.

Lemma remap_alpha_no_rule hi lo oa ta a :
  rule_applies hi lo a = false → remap_alpha hi lo oa ta a = a.
Proof.
  unfold rule_applies, remap_alpha.
  destruct (none_or_zero lo && bool_decide (a > 0)); [done |].
  destruct (is_mode hi a); [done |]. by destruct (is_mode lo a).
Qed.

Lemma remap_alpha_two A B oa ta a :
  B ≠ 0 →
  remap_alpha (Some A) (Some B) oa ta a
  = if bool_decide (a = A) then oa
    else if bool_decide (a = B) then ta else a.
Proof.
  intros HB. unfold remap_alpha. simpl.
  by rewrite (bool_decide_eq_false_2 (B = 0)) by done.
Qed.

Lemma remap_alpha_single hi oa ta a :
  (∀ V, hi = Some V → V > 0) → 0 ≤ a →
  remap_alpha hi None oa ta a
  = if bool_decide (a > 0) then Z.min oa ta else a.
Proof.
  intros Hhi Ha. unfold remap_alpha. simpl. case_bool_decide; [done |].
  destruct hi as [V|]; simpl; [| done].
  specialize (Hhi V eq_refl). by rewrite bool_decide_eq_false_2 by lia.
Qed.

Lemma detect_modes_nonzero img hi lo v :
  image_ok img → _detect_alpha_modes img = Ok (hi, lo) →
  hi = Some v ∨ lo = Some v → nonzero_alpha img v.
Proof.
  intros Hok Hdet Hv.
  destruct (detect_cases img Hok)
    as [[E _] | [(V & E & HV) | (h & l & E & _ & Hh & Hl & _)]];
    rewrite E in Hdet; simplify_eq; destruct Hv; simplify_eq; try done.
  by apply HV.
Qed.

Lemma detect_single_unique img hi v :
  image_ok img → _detect_alpha_modes img = Ok (hi, None) →
  nonzero_alpha img v → hi = Some v.
Proof.
  intros Hok Hdet Hv.
  destruct (detect_cases img Hok)
    as [[E Hno] | [(V & E & HV) | (h & l & E & _)]];
    rewrite E in Hdet; simplify_eq.
  - by destruct (Hno v).
  - apply HV in Hv. by subst.
Qed.

Lemma remap_alpha_changed img hi lo oa ta p :
  image_ok img → _detect_alpha_modes img = Ok (hi, lo) → p ∈ data img →
  remap_alpha hi lo oa ta (alpha p) ≠ alpha p →
  hi = Some (alpha p) ∨ lo = Some (alpha p).
Proof.
  intros Hok Hdet Hp Hch.
  destruct (rule_applies hi lo (alpha p)) eqn:Hrule;
    [| by rewrite remap_alpha_no_rule in Hch].
  unfold rule_applies in Hrule.
  destruct (is_mode hi (alpha p)) eqn:Hhi.
  { left. destruct hi; simpl in Hhi; [| done].
    apply bool_decide_eq_true in Hhi. by subst. }
  destruct (is_mode lo (alpha p)) eqn:Hlo.
  { right. destruct lo; simpl in Hlo; [| done].
    apply bool_decide_eq_true in Hlo. by subst. }
  rewrite !orb_false_r in Hrule. apply andb_true_iff in Hrule as [Hnz Hpos].
  apply bool_decide_eq_true in Hpos.
  assert (nonzero_alpha img (alpha p)) as Hnza by (split; eauto).
  destruct lo as [l|]; simpl in Hnz.
  - apply bool_decide_eq_true in Hnz. subst l.
    assert (nonzero_alpha img 0) as [? _]; [| lia].
    eapply detect_modes_nonzero; eauto.
  - left. by eapply detect_single_unique.
Qed.

Lemma applied_count_none hi lo l :
  (∀ p, p ∈ l → rule_applies hi lo (alpha p) = false) →
  applied_count hi lo l = 0.
Proof.
  unfold applied_count. induction l as [|p l IH]; intros Hall; [done |].
  unfold filter. cbn. rewrite (Hall p) by apply list_elem_of_here. cbn.
  apply IH. intros q Hq. apply Hall. by apply list_elem_of_further.
Qed.

Lemma fmap_id_on {A : Type} (f : A → A) (l : list A) :
  (∀ x, x ∈ l → f x = x) → f <$> l = l.
Proof.
  induction l as [|x l IH]; intros Hf; [done |]. cbn.
  rewrite (Hf x) by apply list_elem_of_here. f_equal.
  apply IH. intros y Hy. apply Hf. by apply list_elem_of_further.
Qed.

Lemma alpha_diff_le_applied hi lo oa ta l :
  alpha_diff_count l (remap_pixel hi lo oa ta <$> l) ≤ applied_count hi lo l.
Proof.
  unfold alpha_diff_count, applied_count. apply inj_le.
  induction l as [|p l IH]; [done |]. cbn [fmap list_fmap zip zip_with].
  fold (remap_pixel hi lo oa ta <$> l).
  fold (zip l (remap_pixel hi lo oa ta <$> l)).
  rewrite !filter_cons.
  destruct (decide (rule_applies hi lo (alpha p))) as [Hrule | Hrule].
  - case_decide; cbn [length]; lia.
  - rewrite decide_False; [exact IH |].
    intros Hne. apply Hne. cbn [fst snd]. rewrite remap_pixel_alpha.
    rewrite remap_alpha_no_rule; [done |].
    by destruct (rule_applies hi lo (alpha p)).
Qed.

(** ** The batch driver carries out its plan *)

Section DriverProps.
Variable fs : FileSystem.

Lemma io_bind_eq {A B : Type} (m : IO A) (k : A → IO B) (w : World) :
  (m ≫= k) w
  = match m w with
    | (Ok a, w') => k a w'
    | (Raise e, w') => (Raise e, w')
    end.
Proof. reflexivity. Qed.

Lemma all_ok_app p q : all_ok fs (p ++ q) = all_ok fs p && all_ok fs q.
Proof. apply forallb_app. Qed.

Lemma outputs_app p q : outputs fs (p ++ q) = outputs fs p ++ outputs fs q.
Proof. unfold outputs. by rewrite fmap_app, join_app. Qed.

Lemma lines_app p q : lines fs (p ++ q) = lines fs p ++ lines fs q.
Proof. unfold lines. by rewrite fmap_app, join_app. Qed.

Lemma reads_app p q : reads fs (p ++ q) = reads fs p ++ reads fs q.
Proof. unfold reads. by rewrite fmap_app, join_app. Qed.

Lemma after_nil w : after fs w [] = w.
Proof.
  unfold after, outputs, lines, reads. cbn. rewrite !app_nil_r. by destruct w.
Qed.

Lemma after_app w p q : after fs w (p ++ q) = after fs (after fs w p) q.
Proof.
  unfold after. cbn [saved stdout opened].
  by rewrite outputs_app, lines_app, reads_app, !app_assoc.
Qed.

Lemma started_app p q :
  started fs (p ++ q)
  = if all_ok fs p then p ++ started fs q else started fs p.
Proof.
  unfold all_ok. induction p as [|s p IH]; [done |].
  cbn [started app forallb].
  destruct (step_ok fs s); cbn [andb]; [| done]. rewrite IH.
  by destruct (forallb (step_ok fs) p).
Qed.

Lemma started_all p : all_ok fs p = true → started fs p = p.
Proof.
  unfold all_ok. induction p as [|s p IH]; [done |].
  cbn [started forallb].
  destruct (step_ok fs s); cbn [andb]; [| done]. intros Hp. by rewrite IH.
Qed.

(** The steps started are those before the first failure and the one that
    fails. *)
Lemma started_fail done s rest :
  all_ok fs done = true → step_ok fs s = false →
  started fs (done ++ s :: rest) = done ++ [s].
Proof.
  intros Hdone Hs. rewrite started_app, Hdone. cbn [started]. by rewrite Hs.
Qed.

Lemma files_of_app p q : files_of (p ++ q) = files_of p + files_of q.
Proof. unfold files_of. rewrite filter_app, length_app. lia. Qed.

Lemma refines_bind {A B : Type} p q (P : A → Prop) (Q : B → Prop)
    (m : IO A) (k : A → IO B) :
  refines fs p P m → (∀ a, P a → refines fs q Q (k a)) →
  refines fs (p ++ q) Q (m ≫= k).
Proof.
  intros Hm Hk w. rewrite io_bind_eq. specialize (Hm w).
  destruct (m w) as [[a | e] w1].
  - destruct Hm as (Hp & Ha & ->). specialize (Hk a Ha (after fs w p)).
    destruct (k a (after fs w p)) as [[b | e] w2].
    + destruct Hk as (Hq & Hb & ->).
      by rewrite all_ok_app, Hp, Hq, after_app.
    + destruct Hk as (Hq & ->).
      by rewrite all_ok_app, Hp, Hq, started_app, Hp, after_app.
  - destruct Hm as (Hp & ->).
    by rewrite all_ok_app, Hp, started_app, Hp.
Qed.

Lemma refines_ret {A : Type} (P : A → Prop) (a : A) :
  P a → refines fs [] P (mret a).
Proof. intros Ha w. cbn -[after]. by rewrite after_nil. Qed.

Lemma all_ok_single s : all_ok fs [s] = step_ok fs s.
Proof. unfold all_ok. cbn. apply andb_true_r. Qed.

Lemma outputs_single s : outputs fs [s] = step_files fs s.
Proof. unfold outputs. cbn. apply app_nil_r. Qed.

Lemma lines_single s : lines fs [s] = step_lines fs s.
Proof. unfold lines. cbn. apply app_nil_r. Qed.

Lemma reads_single s : reads fs [s] = step_reads fs s.
Proof. unfold reads. cbn. apply app_nil_r. Qed.

Lemma outputs_cons s p : outputs fs (s :: p) = step_files fs s ++ outputs fs p.
Proof. done. Qed.

Lemma lines_cons s p : lines fs (s :: p) = step_lines fs s ++ lines fs p.
Proof. done. Qed.

Lemma all_ok_cons s p : all_ok fs (s :: p) = step_ok fs s && all_ok fs p.
Proof. done. Qed.

(** [transform_image], stage by stage. *)
Lemma transform_image_eq i o oa ta w :
  transform_image fs i o oa ta w
  = let w1 := mkWorld (saved w) (stdout w) (opened w ++ [i]) in
    match open_rgba fs i with
    | Raise e => (Raise e, w1)
    | Ok img =>
        match remap img oa ta with
        | Raise e => (Raise e, w1)
        | Ok (out, changed, (hi, lo)) =>
            if can_save fs o then
              let line := Processed i o changed hi lo (Z.min oa ta) in
              match print_exn fs line with
              | None =>
                  (Ok (), mkWorld (saved w ++ [(o, out)])
                            (stdout w ++ [line]) (opened w ++ [i]))
              | Some e =>
                  (Raise e, mkWorld (saved w ++ [(o, out)])
                              (stdout w) (opened w ++ [i]))
              end
            else (Raise OSError, w1)
        end
    end.
Proof.
  unfold transform_image. rewrite io_bind_eq. unfold Image_open at 1.
  destruct (open_rgba fs i) as [img | e]; [| done].
  rewrite io_bind_eq. unfold lift.
  destruct (remap img oa ta) as [[[out changed] [hi lo]] | e]; [| done].
  rewrite io_bind_eq. unfold save. cbn [saved stdout opened].
  destruct (can_save fs o); [| done].
  unfold print. cbn [saved stdout opened].
  by destruct (print_exn fs _).
Qed.

(** A step does the same in every world: it only adds to it. *)
Lemma run_step_frame s w :
  run_step fs s w = ((run_step fs s world0).1, after fs w [s]).
Proof.
  unfold after. rewrite outputs_single, lines_single, reads_single.
  unfold step_files, step_lines, step_reads.
  destruct s as [d | i o oa ta | m]; cbn [run_step].
  - unfold ensure_dir, lift. cbn. rewrite !app_nil_r. by destruct w.
  - rewrite !transform_image_eq. cbn zeta.
    destruct (open_rgba fs i) as [img | e];
      [| cbn; by rewrite !app_nil_r].
    destruct (remap img oa ta) as [[[out changed] [hi lo]] | e];
      [| cbn; by rewrite !app_nil_r].
    destruct (can_save fs o); [| cbn; by rewrite !app_nil_r].
    destruct (print_exn fs _); cbn; by rewrite ?app_nil_r.
  - unfold print. destruct (print_exn fs m); cbn; rewrite ?app_nil_r;
      by destruct w.
Qed.

(** A single step, carried out by the call it stands for. *)
Lemma refines_step s : refines fs [s] (λ _, True) (run_step fs s).
Proof.
  intros w. rewrite run_step_frame, all_ok_single. unfold step_ok.
  destruct (run_step fs s world0).1 as [[] | e]; [done |].
  split; [done |]. cbn [started]. by destruct (step_ok fs s).
Qed.

Lemma refines_ensure_dir d :
  refines fs [Mkdir d] (λ _, True) (ensure_dir fs d).
Proof. exact (refines_step (Mkdir d)). Qed.

Lemma refines_transform i o oa ta :
  refines fs [Transform i o oa ta] (λ _, True) (transform_image fs i o oa ta).
Proof. exact (refines_step (Transform i o oa ta)). Qed.

Lemma refines_print m : refines fs [Say m] (λ _, True) (print fs m).
Proof. exact (refines_step (Say m)). Qed.

Lemma refines_post {A : Type} p (P Q : A → Prop) (m : IO A) :
  refines fs p P m → (∀ a, P a → Q a) → refines fs p Q m.
Proof.
  intros Hm HPQ w. specialize (Hm w). destruct (m w) as [[a | e] w'];
    [| done]. destruct Hm as (? & ? & ?). auto.
Qed.

(** A loop whose every round carries out its own steps and adds their
    number of files to the counter. *)
Lemma refines_io_for {A : Type} (xs : list A) (pl : A → list step)
    (body : A → Z → IO Z) (s : Z) :
  (∀ x s, refines fs (pl x) (λ s', s' = s + files_of (pl x)) (body x s)) →
  refines fs (mjoin (pl <$> xs))
    (λ s', s' = s + files_of (mjoin (pl <$> xs))) (io_for xs body s).
Proof.
  intros Hbody. revert s. induction xs as [|x xs IH]; intros s.
  - apply refines_ret. unfold files_of. cbn. lia.
  - rewrite fmap_cons. cbn [io_for].
    change (mjoin (pl x :: (pl <$> xs))) with (pl x ++ mjoin (pl <$> xs)).
    eapply refines_bind; [apply Hbody |].
    intros s1 ->. eapply refines_post; [apply IH |].
    intros s2 ->. cbn beta. rewrite files_of_app. lia.
Qed.

Lemma process_folder_refines in_dir out_dir oa ta :
  refines fs (folder_plan fs in_dir out_dir oa ta)
    (λ n, n = files_of (folder_plan fs in_dir out_dir oa ta))
    (process_folder fs in_dir out_dir oa ta).
Proof.
  unfold process_folder, folder_plan.
  destruct (isdir fs in_dir); cbn [negb].
  - change (Mkdir out_dir :: ?l) with ([Mkdir out_dir] ++ l).
    eapply refines_bind; [apply refines_ensure_dir |]. intros _ _.
    eapply refines_post.
    + apply (refines_io_for _ (file_steps in_dir out_dir oa ta)).
      intros name count. unfold file_steps, is_png.
      destruct (endswith (lower name) ".png"); cbn [negb].
      * rewrite <- (app_nil_r [Transform _ _ _ _]).
        eapply refines_bind; [apply refines_transform |]. intros _ _.
        apply refines_ret. by rewrite app_nil_r.
      * apply refines_ret. unfold files_of. cbn. lia.
    + intros n ->. rewrite files_of_app.
      change (files_of [Mkdir out_dir]) with 0. lia.
  - rewrite <- (app_nil_r [Say _]).
    eapply refines_bind; [apply refines_print |]. intros _ _.
    by apply refines_ret.
Qed.

Lemma variant_body_refines (v : Variant) (total : Z) :
  refines fs (variant_plan fs v)
    (λ total', total' = total + files_of (variant_plan fs v))
    (let oa := round (255 * opaque_alpha v) in
     let ta := round (255 * transparent_alpha v) in
     n ← process_folder fs (EDGES_IN fs) (edges_out_dir fs (tag v)) oa ta;
     let total := total + n in
     n ← process_folder fs (CORNERS_IN fs) (corners_out_dir fs (tag v)) oa ta;
     let total := total + n in
     n ← process_folder fs (CENTERS_IN fs) (centers_out_dir fs (tag v)) oa ta;
     let total := total + n in
     if isfile fs (BORDER_IN fs) then
       _ ← transform_image fs (BORDER_IN fs) (border_out_path fs (tag v))
             oa ta;
       mret (total + 1)
     else mret total).
Proof.
  unfold variant_plan. cbn zeta.
  eapply refines_bind; [apply process_folder_refines |]. intros n1 ->.
  eapply refines_bind; [apply process_folder_refines |]. intros n2 ->.
  eapply refines_bind; [apply process_folder_refines |]. intros n3 ->.
  rewrite !files_of_app.
  destruct (isfile fs (BORDER_IN fs)).
  - rewrite <- (app_nil_r [Transform _ _ _ _]).
    eapply refines_bind; [apply refines_transform |]. intros _ _.
    apply refines_ret. rewrite app_nil_r.
    change (files_of [Transform _ _ _ _]) with 1. lia.
  - apply refines_ret. change (files_of []) with 0. lia.
Qed.

Lemma main_refines : refines fs (plan fs) (λ status, status = 0) (main fs).
Proof.
  unfold main, plan.
  eapply refines_bind.
  - apply (refines_io_for VARIANTS (variant_plan fs) _ 0).
    apply variant_body_refines.
  - cbn beta. intros total ->. rewrite Z.add_0_l. fold (batch fs).
    rewrite <- (app_nil_r [Say _]).
    eapply refines_bind; [apply refines_print |]. intros _ _.
    by apply refines_ret.
Qed.

Lemma all_ok_forall p :
  all_ok fs p = true ↔ ∀ s, s ∈ p → step_ok fs s = true.
Proof.
  unfold all_ok. induction p as [|s p IH]; cbn [forallb].
  - split; [| done]. intros _ s Hs. by apply elem_of_nil in Hs.
  - rewrite andb_true_iff, IH. split.
    + intros [Hs Hp] s' [-> | Hs']%elem_of_cons; auto.
    + intros Hall. split; [apply Hall, list_elem_of_here |].
      intros s' Hs'. by apply Hall, list_elem_of_further.
Qed.

(** *** What a single step leaves behind *)

Lemma step_mkdir_files d : step_files fs (Mkdir d) = [].
Proof. done. Qed.

Lemma step_say_files m : step_files fs (Say m) = [].
Proof. unfold step_files. cbn. unfold print. by destruct (print_exn fs m). Qed.

Lemma step_say_ok m : step_ok fs (Say m) = true ↔ print_exn fs m = None.
Proof.
  unfold step_ok. cbn. unfold print. by destruct (print_exn fs m).
Qed.

Lemma step_say_lines m :
  step_ok fs (Say m) = true → step_lines fs (Say m) = [m].
Proof.
  unfold step_ok, step_lines. cbn. unfold print.
  by destruct (print_exn fs m).
Qed.

Lemma step_transform_ok i o oa ta :
  step_ok fs (Transform i o oa ta) = true →
  ∃ img out changed hi lo,
    open_rgba fs i = Ok img ∧ remap img oa ta = Ok (out, changed, (hi, lo))
    ∧ can_save fs o = true
    ∧ step_files fs (Transform i o oa ta) = [(o, out)]
    ∧ step_lines fs (Transform i o oa ta)
      = [Processed i o changed hi lo (Z.min oa ta)].
Proof.
  unfold step_ok, step_files, step_lines. cbn [run_step].
  rewrite transform_image_eq. cbn zeta.
  destruct (open_rgba fs i) as [img | e] eqn:Hopen; [| done].
  destruct (remap img oa ta) as [[[out changed] [hi lo]] | e] eqn:Hremap;
    [| done].
  destruct (can_save fs o); [| done].
  destruct (print_exn fs _); [done |]. intros _.
  by exists img, out, changed, hi, lo.
Qed.

(** A step that fails has printed nothing, and has saved at most the file
    whose line it could not print. *)
Lemma step_fail s :
  step_ok fs s = false →
  step_lines fs s = [] ∧ (length (step_files fs s) ≤ 1)%nat.
Proof.
  unfold step_ok, step_files, step_lines.
  destruct s as [d | i o oa ta | m]; cbn [run_step].
  - unfold ensure_dir, lift. cbn. auto.
  - rewrite transform_image_eq. cbn zeta.
    destruct (open_rgba fs i) as [img | e]; [| cbn; auto].
    destruct (remap img oa ta) as [[[out changed] [hi lo]] | e];
      [| cbn; auto].
    destruct (can_save fs o); [| cbn; auto].
    destruct (print_exn fs _); [cbn; auto | done].
  - unfold print. destruct (print_exn fs m); [cbn; auto | done].
Qed.

(** Every file a step saves, failing or not, is the remapped image of the
    file it opened. *)
Lemma elem_of_step_files s f :
  f ∈ step_files fs s →
  ∃ i oa ta img changed modes,
    s = Transform i f.1 oa ta ∧ open_rgba fs i = Ok img
    ∧ remap img oa ta = Ok (f.2, changed, modes).
Proof.
  destruct s as [d | i o oa ta | m].
  - rewrite step_mkdir_files. by intros ?%elem_of_nil.
  - unfold step_files. cbn [run_step]. rewrite transform_image_eq. cbn zeta.
    destruct (open_rgba fs i) as [img | e] eqn:Hopen;
      [| by intros ?%elem_of_nil].
    destruct (remap img oa ta) as [[[out changed] [hi lo]] | e] eqn:Hremap;
      [| by intros ?%elem_of_nil].
    destruct (can_save fs o); [| by intros ?%elem_of_nil].
    assert (f ∈ [(o, out)] →
            ∃ i0 oa0 ta0 img0 changed0 modes0,
              Transform i o oa ta = Transform i0 f.1 oa0 ta0
              ∧ open_rgba fs i0 = Ok img0
              ∧ remap img0 oa0 ta0 = Ok (f.2, changed0, modes0)) as Hone.
    { intros ->%list_elem_of_singleton.
      by exists i, oa, ta, img, changed, (hi, lo). }
    destruct (print_exn fs _); exact Hone.
  - rewrite step_say_files. by intros ?%elem_of_nil.
Qed.

(** What a step opens is its input path. *)
Lemma elem_of_step_reads s i :
  i ∈ step_reads fs s → ∃ o oa ta, s = Transform i o oa ta.
Proof.
  destruct s as [d | i' o oa ta | m]; unfold step_reads; cbn [run_step].
  - by intros ?%elem_of_nil.
  - rewrite transform_image_eq. cbn zeta.
    assert (i ∈ [i'] →
            ∃ o0 oa0 ta0, Transform i' o oa ta = Transform i o0 oa0 ta0)
      as Hone.
    { intros ->%list_elem_of_singleton. by exists o, oa, ta. }
    destruct (open_rgba fs i') as [img | e]; [| exact Hone].
    destruct (remap img oa ta) as [[[out changed] [hi lo]] | e];
      [| exact Hone].
    destruct (can_save fs o); [| exact Hone].
    destruct (print_exn fs _); exact Hone.
  - unfold print. destruct (print_exn fs m); by intros ?%elem_of_nil.
Qed.

Lemma step_files_length s :
  step_ok fs s = true →
  length (step_files fs s) = if is_transform s then 1%nat else 0%nat.
Proof.
  destruct s as [d | i o oa ta | m]; intros Hok.
  - done.
  - destruct (step_transform_ok _ _ _ _ Hok)
      as (img & out & changed & hi & lo & _ & _ & _ & -> & _). done.
  - by rewrite step_say_files.
Qed.

(** When every step succeeds, each file to transform is saved once. *)
Lemma outputs_length p :
  all_ok fs p = true → Z.of_nat (length (outputs fs p)) = files_of p.
Proof.
  unfold all_ok, outputs, files_of. induction p as [|s p IH]; [done |].
  cbn [forallb]. intros [Hs Hp]%andb_true_iff.
  rewrite fmap_cons.
  change (mjoin (step_files fs s :: (step_files fs <$> p)))
    with (step_files fs s ++ mjoin (step_files fs <$> p)).
  rewrite length_app, (step_files_length s Hs), Nat2Z.inj_add, (IH Hp).
  destruct (is_transform s) eqn:E.
  - rewrite filter_cons_True by (by rewrite E). cbn [length]. lia.
  - rewrite filter_cons_False by (rewrite E; intros []). lia.
Qed.

Lemma elem_of_outputs p f :
  f ∈ outputs fs p ↔ ∃ s, s ∈ p ∧ f ∈ step_files fs s.
Proof.
  unfold outputs. rewrite list_elem_of_join. split.
  - intros (l & Hf & Hl).
    apply list_elem_of_fmap in Hl as (s & -> & Hs). eauto.
  - intros (s & Hs & Hf). exists (step_files fs s). split; [done |].
    apply list_elem_of_fmap. eauto.
Qed.

Lemma elem_of_lines p m :
  m ∈ lines fs p ↔ ∃ s, s ∈ p ∧ m ∈ step_lines fs s.
Proof.
  unfold lines. rewrite list_elem_of_join. split.
  - intros (l & Hf & Hl).
    apply list_elem_of_fmap in Hl as (s & -> & Hs). eauto.
  - intros (s & Hs & Hf). exists (step_lines fs s). split; [done |].
    apply list_elem_of_fmap. eauto.
Qed.

Lemma elem_of_reads p i :
  i ∈ reads fs p ↔ ∃ s, s ∈ p ∧ i ∈ step_reads fs s.
Proof.
  unfold reads. rewrite list_elem_of_join. split.
  - intros (l & Hf & Hl).
    apply list_elem_of_fmap in Hl as (s & -> & Hs). eauto.
  - intros (s & Hs & Hf). exists (step_reads fs s). split; [done |].
    apply list_elem_of_fmap. eauto.
Qed.

Lemma elem_of_started p s : s ∈ started fs p → s ∈ p.
Proof.
  induction p as [|s' p IH]; cbn [started]; [done |].
  intros [-> | Hs]%elem_of_cons; [apply list_elem_of_here |].
  apply list_elem_of_further.
  destruct (step_ok fs s'); [by apply IH | by apply elem_of_nil in Hs].
Qed.

(** *** The whole run *)

(** [main] carries out [plan], stops at the first step that fails, and
    returns 0 when none does. *)
Lemma main_spec w :
  match main fs w with
  | (Ok status, w') =>
      status = 0 ∧ all_ok fs (plan fs) = true ∧ w' = after fs w (plan fs)
  | (Raise _, w') =>
      all_ok fs (plan fs) = false ∧ w' = after fs w (started fs (plan fs))
  end.
Proof.
  pose proof (main_refines w) as Hmain.
  destruct (main fs w) as [[status | e] w']; [| done].
  by destruct Hmain as (? & ? & ?).
Qed.

(** In either case the world after [main] is the world after the steps
    that were started. *)
Lemma main_world w : (main fs w).2 = after fs w (started fs (plan fs)).
Proof.
  pose proof (main_spec w) as Hmain.
  destruct (main fs w) as [[status | e] w']; cbn [snd].
  - destruct Hmain as (_ & Hok & ->). by rewrite started_all.
  - by destruct Hmain as (_ & ->).
Qed.

Lemma script_world w : (script fs w).2 = (main fs w).2.
Proof. unfold script. by destruct (main fs w) as [[status | e] w']. Qed.

(** *** The files and the lines of a plan that succeeds *)

Lemma file_steps_outputs in_dir out_dir oa ta names :
  all_ok fs (mjoin (file_steps in_dir out_dir oa ta <$> names)) = true →
  Forall2 (transformed fs in_dir out_dir oa ta)
    (filter (λ name, is_png name) names)
    (outputs fs (mjoin (file_steps in_dir out_dir oa ta <$> names))).
Proof.
  induction names as [|name names IH]; [constructor |].
  rewrite fmap_cons.
  change (mjoin (?a :: ?l)) with (a ++ mjoin l).
  rewrite all_ok_app, outputs_app, andb_true_iff. intros [Hname Hrest].
  unfold file_steps in Hname |- * at 1.
  destruct (is_png name) eqn:Hpng.
  - rewrite filter_cons_True by (by rewrite Hpng).
    rewrite all_ok_single in Hname.
    destruct (step_transform_ok _ _ _ _ Hname)
      as (img & out & changed & hi & lo & Hopen & Hremap & _ & Hfiles & _).
    rewrite outputs_single, Hfiles. cbn [app]. constructor; [| by apply IH].
    split; [done |]. by exists img, changed, (hi, lo).
  - rewrite filter_cons_False by (rewrite Hpng; intros []).
    by apply IH.
Qed.

Lemma files_of_file_steps in_dir out_dir oa ta names :
  files_of (mjoin (file_steps in_dir out_dir oa ta <$> names))
  = Z.of_nat (length (filter (λ name, is_png name) names)).
Proof.
  induction names as [|name names IH]; [done |].
  rewrite fmap_cons.
  change (mjoin (?a :: ?l)) with (a ++ mjoin l).
  rewrite files_of_app, IH. unfold file_steps.
  destruct (is_png name) eqn:Hpng.
  - rewrite filter_cons_True by (by rewrite Hpng).
    change (files_of [Transform _ _ _ _]) with 1. cbn [length]. lia.
  - rewrite filter_cons_False by (rewrite Hpng; intros []).
    change (files_of []) with 0. lia.
Qed.

Lemma files_of_folder_plan in_dir out_dir oa ta :
  files_of (folder_plan fs in_dir out_dir oa ta) = png_count fs in_dir.
Proof.
  unfold folder_plan, png_count. destruct (isdir fs in_dir); [| done].
  change (Mkdir out_dir :: ?l) with ([Mkdir out_dir] ++ l).
  rewrite files_of_app, files_of_file_steps.
  change (files_of [Mkdir out_dir]) with 0. lia.
Qed.

Lemma files_of_variant_plan v : files_of (variant_plan fs v) = input_count fs.
Proof.
  unfold variant_plan, input_count. cbn zeta.
  rewrite !files_of_app, !files_of_folder_plan.
  destruct (isfile fs (BORDER_IN fs)).
  - change (files_of [Transform _ _ _ _]) with 1. lia.
  - change (files_of []) with 0. lia.
Qed.

Lemma files_of_batch : files_of (batch fs) = 3 * input_count fs.
Proof.
  unfold batch, VARIANTS. rewrite !fmap_cons.
  change (mjoin (?a :: ?b :: ?c :: (variant_plan fs <$> [])))
    with (a ++ b ++ c ++ []).
  rewrite !files_of_app, !files_of_variant_plan.
  change (files_of []) with 0. lia.
Qed.

Lemma files_of_plan : files_of (plan fs) = 3 * input_count fs.
Proof.
  unfold plan. rewrite files_of_app, files_of_batch.
  change (files_of [Say _]) with 0. lia.
Qed.

(** What a folder that is processed to the end leaves behind. *)
Lemma process_folder_files in_dir out_dir oa ta :
  isdir fs in_dir = true →
  all_ok fs (folder_plan fs in_dir out_dir oa ta) = true →
  Forall2 (transformed fs in_dir out_dir oa ta)
    (filter (λ name, is_png name) (listdir fs in_dir))
    (outputs fs (folder_plan fs in_dir out_dir oa ta)).
Proof.
  unfold folder_plan. intros -> Hok.
  rewrite all_ok_cons in Hok. apply andb_true_iff in Hok as [_ Hok].
  rewrite outputs_cons, step_mkdir_files. cbn [app].
  by apply file_steps_outputs.
Qed.

(** The steps of a folder are steps of the batch. *)
Lemma folder_plan_in_plan v kind s :
  v ∈ VARIANTS → kind ∈ KINDS →
  s ∈ folder_plan fs (path_join (path_join (GFX fs) "base") kind)
        (path_join (variant_root fs (tag v)) kind)
        (round (255 * opaque_alpha v)) (round (255 * transparent_alpha v)) →
  s ∈ plan fs.
Proof.
  intros Hv Hkind Hs. unfold plan. apply elem_of_app. left.
  unfold batch. apply list_elem_of_join. exists (variant_plan fs v).
  split; [| apply list_elem_of_fmap; eauto].
  unfold variant_plan. cbn zeta. rewrite !elem_of_app.
  unfold KINDS in Hkind. rewrite !elem_of_cons, elem_of_nil in Hkind.
  destruct Hkind as [-> | [-> | [-> | []]]]; auto.
Qed.

Lemma last_lines_plan :
  all_ok fs (plan fs) = true →
  ∃ ms, lines fs (plan fs) = ms ++ [Done (3 * input_count fs) 3].
Proof.
  unfold plan. rewrite all_ok_app, andb_true_iff, all_ok_single.
  intros [_ Hdone]. exists (lines fs (batch fs)).
  by rewrite lines_app, lines_single, (step_say_lines _ Hdone), files_of_batch.
Qed.
End DriverProps.

(** * The claims *)

(** C9. The detector is deterministic.  Take the sort by its contract
    only (the same entries, by decreasing key), so that a run may order
    entries of equal key as it likes: every such run still ends with the
    result [_detect_alpha_modes] computes, so any two runs on the same
    image end alike.  The tie-break makes the difference: the key
    [(count, alpha)] is the whole entry, so entries of equal key are
    equal and only one order is sorted. *)
Theorem detect_deterministic img :
  detect_run img (_detect_alpha_modes img)
  ∧ ∀ r1 r2, detect_run img r1 → detect_run img r2 → r1 = r2.
Proof.
  assert (∀ r, detect_run img r → r = _detect_alpha_modes img) as Huniq.
  { intros r. unfold detect_run, _detect_alpha_modes.
    destruct (alpha_hist img) as [hist | e]; [| done]. cbn.
    unfold modes_of_hist.
    set (nz := filter (λ t : Z * Z, t.1 > 0 ∧ t.2 > 0) (enumerate hist)).
    case_bool_decide; [done |].
    intros (s & [Hperm Hsorted] & ->).
    enough (s = sort_reverse nz) as -> by done.
    apply (StronglySorted_unique key_ge).
    - apply (Sorted_StronglySorted key_ge). exact Hsorted.
    - apply StronglySorted_merge_sort; apply _.
    - etrans; [exact Hperm |]. symmetry. apply merge_sort_Permutation. }
  assert (detect_run img (_detect_alpha_modes img)) as Hrun.
  { unfold detect_run, _detect_alpha_modes.
    destruct (alpha_hist img) as [hist | e]; [| done]. cbn.
    unfold modes_of_hist.
    set (nz := filter (λ t : Z * Z, t.1 > 0 ∧ t.2 > 0) (enumerate hist)).
    case_bool_decide; [done |].
    exists (sort_reverse nz). split; [| done]. split.
    - apply merge_sort_Permutation.
    - apply Sorted_merge_sort. apply _. }
  split; [exact Hrun |].
  intros r1 r2 H1 H2. by rewrite (Huniq r1 H1), (Huniq r2 H2).
Qed.

Lemma detect_deterministic_witness :
  detect_run img_three (Ok (Some 90, Some 50))
  ∧ detect_run img_three (_detect_alpha_modes img_three)
  ∧ Ok (Some 90, Some 50) = _detect_alpha_modes img_three.
Proof.
  destruct (detect_deterministic img_three) as [Hrun Hsame].
  assert (detect_run img_three (Ok (Some 90, Some 50))) as Hrun'.
  { replace (Ok (Some 90, Some 50)) with (_detect_alpha_modes img_three)
      by (vm_compute; reflexivity).
    exact Hrun. }
  split; [exact Hrun' |]. split; [exact Hrun |].
  exact (Hsame _ _ Hrun' Hrun).
Defined.

(** C10. On every decoded image the detector returns; each mode it
    returns is an alpha value in 1..255 that occurs in the image, with a
    positive histogram count, and when both modes are present the high one
    is strictly greater than the low one. *)
Theorem detected_modes_occur img :
  image_ok img →
  ∃ hi lo hist,
    alpha_hist img = Ok hist ∧ _detect_alpha_modes img = Ok (hi, lo)
    ∧ (∀ v, hi = Some v ∨ lo = Some v →
            1 ≤ v ≤ 255 ∧ (∃ p, p ∈ data img ∧ alpha p = v)
            ∧ ∃ c, hist !! Z.to_nat v = Some c ∧ c > 0)
    ∧ (∀ h l, hi = Some h → lo = Some l → l < h).
Proof.
  intros Hok. destruct (detect_total img Hok) as (hi & lo & Hdet).
  destruct (alpha_hist_spec img Hok) as (hist & Hrun & Hh).
  exists hi, lo, hist. split; [done |]. split; [done |]. split.
  - intros v Hv.
    assert (nonzero_alpha img v) as Hnz by by eapply detect_modes_nonzero.
    pose proof (nonzero_alpha_range img v Hok Hnz) as Hr.
    split; [done |]. split; [by destruct Hnz |].
    destruct Hh as (_ & _ & Hc). exists (alpha_count v (data img)).
    split; [apply Hc; lia |]. apply alpha_count_pos. by destruct Hnz.
  - intros h l -> ->.
    destruct (detect_cases img Hok)
      as [[E _] | [(V & E & _) | (h' & l' & E & Hlt & _)]];
      rewrite E in Hdet; by simplify_eq.
Qed.

Lemma detected_modes_occur_witness :
  image_ok img_three ∧
  ∃ hi lo hist,
    alpha_hist img_three = Ok hist
    ∧ _detect_alpha_modes img_three = Ok (hi, lo)
    ∧ (∀ v, hi = Some v ∨ lo = Some v →
            1 ≤ v ≤ 255 ∧ (∃ p, p ∈ data img_three ∧ alpha p = v)
            ∧ ∃ c, hist !! Z.to_nat v = Some c ∧ c > 0)
    ∧ (∀ h l, hi = Some h → lo = Some l → l < h).
Proof.
  assert (image_ok img_three) as Hok by solve_image_ok.
  split; [exact Hok | exact (detected_modes_occur img_three Hok)].
Defined.

(** C2. On an image with at least two distinct non-zero alpha values the
    detector returns two occurring alpha values, the larger as high mode
    and the smaller as low mode, and each of the two is preferred to every
    other occurring non-zero alpha: it has more pixels, or as many pixels
    and a larger alpha value.  On an image with exactly one distinct
    non-zero alpha value [V] it returns [(V, absent)]. *)
Theorem detect_two_most_frequent img :
  image_ok img →
  (∀ u v, nonzero_alpha img u → nonzero_alpha img v → u ≠ v →
     ∃ hi lo, _detect_alpha_modes img = Ok (Some hi, Some lo)
       ∧ lo < hi ∧ nonzero_alpha img hi ∧ nonzero_alpha img lo
       ∧ ∀ c, nonzero_alpha img c → c ≠ hi → c ≠ lo →
              outranks img hi c ∧ outranks img lo c)
  ∧ (∀ V, nonzero_alpha img V → (∀ v, nonzero_alpha img v → v = V) →
          _detect_alpha_modes img = Ok (Some V, None)).
Proof.
  intros Hok.
  destruct (detect_cases img Hok)
    as [[E Hno] | [(V & E & HV) | (hi & lo & E & Hrest)]].
  - split; [intros u v Hu | intros V HV]; by edestruct Hno.
  - split.
    + intros u v Hu Hv Hne. apply HV in Hu, Hv. congruence.
    + intros V' HV' _. apply HV in HV'. by subst.
  - split; [by eauto |].
    intros V _ Huniq. destruct Hrest as (Hlt & Hhi & Hlo & _).
    apply Huniq in Hhi, Hlo. lia.
Qed.

Lemma detect_two_most_frequent_witness :
  image_ok img_three ∧ nonzero_alpha img_three 50
  ∧ nonzero_alpha img_three 200
  ∧ ∃ hi lo, _detect_alpha_modes img_three = Ok (Some hi, Some lo)
      ∧ lo < hi ∧ nonzero_alpha img_three hi ∧ nonzero_alpha img_three lo
      ∧ ∀ c, nonzero_alpha img_three c → c ≠ hi → c ≠ lo →
             outranks img_three hi c ∧ outranks img_three lo c.
Proof.
  assert (image_ok img_three) as Hok by solve_image_ok.
  assert (nonzero_alpha img_three 50) as H50.
  { split; [lia |]. exists (1, 1, 1, 50). split; [| reflexivity].
    apply list_elem_of_here. }
  assert (nonzero_alpha img_three 200) as H200.
  { split; [lia |]. exists (2, 2, 2, 200). split; [| reflexivity].
    apply list_elem_of_further, list_elem_of_here. }
  split; [exact Hok |]. split; [exact H50 |]. split; [exact H200 |].
  apply (proj1 (detect_two_most_frequent img_three Hok) 50 200 H50 H200).
  lia.
Defined.

Example detect_img_three :
  _detect_alpha_modes img_three = Ok (Some 90, Some 50).
Proof. vm_compute. reflexivity. Qed.

Example detect_img_single :
  _detect_alpha_modes img_single = Ok (Some 200, None).
Proof. vm_compute. reflexivity. Qed.

(** C1. When an image has exactly two distinct non-zero alpha values
    [A > B] the detector finds the modes [(A, B)]; and whenever the
    detector finds both modes [(A, B)], the remapper returns an image of
    the same size in which every pixel of alpha [A] has alpha
    [opaque_alpha], every pixel of alpha [B] has alpha [transparent_alpha],
    and every other pixel keeps its alpha.  Nothing is assumed on the order
    of the two targets. *)
Theorem remap_two_modes img oa ta A B :
  image_ok img → channel_ok oa → channel_ok ta →
  (B < A → (∀ v, nonzero_alpha img v ↔ v = A ∨ v = B) →
   _detect_alpha_modes img = Ok (Some A, Some B))
  ∧ (_detect_alpha_modes img = Ok (Some A, Some B) →
     ∃ out changed,
       remap img oa ta = Ok (out, changed, (Some A, Some B))
       ∧ size out = size img ∧ length (data out) = length (data img)
       ∧ ∀ i p, data img !! i = Some p →
           ∃ q, data out !! i = Some q
             ∧ alpha q = if bool_decide (alpha p = A) then oa
                         else if bool_decide (alpha p = B) then ta
                         else alpha p).
Proof.
  intros Hok Hoa Hta. split.
  - intros Hlt Hset.
    destruct (detect_cases img Hok)
      as [[E Hno] | [(V & E & HV) | (hi & lo & E & Hlt' & Hhi & Hlo & _)]].
    + destruct (Hno A). apply Hset. by left.
    + assert (A = V) by (apply HV, Hset; by left).
      assert (B = V) by (apply HV, Hset; by right). lia.
    + apply Hset in Hhi, Hlo. rewrite E. repeat f_equal; lia.
  - intros Hdet.
    destruct (remap_spec img oa ta Hok Hoa Hta) as (hi & lo & Hdet' & Hrun).
    rewrite Hdet in Hdet'. simplify_eq.
    eexists _, _. split; [exact Hrun |]. simpl.
    split; [done |]. split; [by rewrite length_fmap |].
    intros i p Hp. exists (remap_pixel (Some A) (Some B) oa ta p).
    split; [by rewrite list_lookup_fmap, Hp |].
    rewrite remap_pixel_alpha. apply remap_alpha_two.
    assert (nonzero_alpha img B) as [? _]; [| lia].
    eapply detect_modes_nonzero; eauto.
Qed.

Lemma remap_two_modes_witness :
  image_ok img2x1 ∧ channel_ok 26 ∧ channel_ok 64
  ∧ _detect_alpha_modes img2x1 = Ok (Some 102, Some 38)
  ∧ ∃ out changed,
      remap img2x1 26 64 = Ok (out, changed, (Some 102, Some 38))
      ∧ size out = size img2x1
      ∧ length (data out) = length (data img2x1)
      ∧ ∀ i p, data img2x1 !! i = Some p →
          ∃ q, data out !! i = Some q
            ∧ alpha q = if bool_decide (alpha p = 102) then 26
                        else if bool_decide (alpha p = 38) then 64
                        else alpha p.
Proof.
  assert (image_ok img2x1) as Hok by solve_image_ok.
  assert (channel_ok 26) as H26 by (unfold channel_ok; lia).
  assert (channel_ok 64) as H64 by (unfold channel_ok; lia).
  assert (_detect_alpha_modes img2x1 = Ok (Some 102, Some 38)) as Hdet
    by (vm_compute; reflexivity).
  split; [exact Hok |]. split; [exact H26 |]. split; [exact H64 |].
  split; [exact Hdet |].
  exact (proj2 (remap_two_modes img2x1 26 64 102 38 Hok H26 H64) Hdet).
Defined.

(** C3. When the detected low mode is absent, at most one distinct
    non-zero alpha value exists in the image, and the remapper returns an
    image of the same size in which every pixel of alpha > 0 has its red,
    green and blue and the alpha [min(opaque_alpha, transparent_alpha)],
    and every pixel of alpha 0 is the input pixel, untouched. *)
Theorem remap_single_mode img oa ta hi :
  image_ok img → channel_ok oa → channel_ok ta →
  _detect_alpha_modes img = Ok (hi, None) →
  (∀ u v, nonzero_alpha img u → nonzero_alpha img v → u = v)
  ∧ ∃ out changed,
      remap img oa ta = Ok (out, changed, (hi, None))
      ∧ size out = size img ∧ length (data out) = length (data img)
      ∧ ∀ i p, data img !! i = Some p →
          data out !! i
          = Some (if bool_decide (alpha p > 0)
                  then (red p, green p, blue p, Z.min oa ta)
                  else p).
Proof.
  intros Hok Hoa Hta Hdet. split.
  - intros u v Hu Hv.
    apply (detect_single_unique img hi u Hok Hdet) in Hu.
    apply (detect_single_unique img hi v Hok Hdet) in Hv. congruence.
  - destruct (remap_spec img oa ta Hok Hoa Hta) as (hi' & lo & Hdet' & Hrun).
    rewrite Hdet in Hdet'. simplify_eq.
    eexists _, _. split; [exact Hrun |]. simpl.
    split; [done |]. split; [by rewrite length_fmap |].
    intros i p Hp. rewrite list_lookup_fmap, Hp.
    cbn [fmap option_fmap option_map].
    f_equal.
    assert (remap_alpha hi' None oa ta (alpha p)
            = if bool_decide (alpha p > 0) then Z.min oa ta else alpha p)
      as Halpha.
    { apply remap_alpha_single.
      - intros V ->.
        assert (nonzero_alpha img V) as [? _]; [| done].
        eapply detect_modes_nonzero; eauto.
      - eapply alpha_nonneg; [done |]. by eapply list_elem_of_lookup_2. }
    case_bool_decide.
    + unfold remap_pixel. by rewrite Halpha.
    + by apply remap_pixel_id.
Qed.

Lemma remap_single_mode_witness :
  image_ok img_single ∧ channel_ok 102 ∧ channel_ok 38
  ∧ _detect_alpha_modes img_single = Ok (Some 200, None)
  ∧ (∀ u v, nonzero_alpha img_single u → nonzero_alpha img_single v → u = v)
  ∧ ∃ out changed,
      remap img_single 102 38 = Ok (out, changed, (Some 200, None))
      ∧ size out = size img_single
      ∧ length (data out) = length (data img_single)
      ∧ ∀ i p, data img_single !! i = Some p →
          data out !! i
          = Some (if bool_decide (alpha p > 0)
                  then (red p, green p, blue p, Z.min 102 38)
                  else p).
Proof.
  assert (image_ok img_single) as Hok by solve_image_ok.
  assert (channel_ok 102) as H102 by (unfold channel_ok; lia).
  assert (channel_ok 38) as H38 by (unfold channel_ok; lia).
  assert (_detect_alpha_modes img_single = Ok (Some 200, None)) as Hdet
    by (vm_compute; reflexivity).
  split; [exact Hok |]. split; [exact H102 |]. split; [exact H38 |].
  split; [exact Hdet |].
  exact (remap_single_mode img_single 102 38 (Some 200) Hok H102 H38 Hdet).
Defined.

Example remap_img_single :
  remap img_single 102 38
  = Ok (mkImage (2%nat, 2%nat)
          [(1, 2, 3, 38); (4, 5, 6, 0); (7, 8, 9, 38); (0, 0, 0, 0)],
        2, (Some 200, None)).
Proof. vm_compute. reflexivity. Qed.

(** C7. On an image whose pixels all have alpha 0 the detector returns
    [(absent, absent)] and the remapper returns the input image itself,
    with a diagnostic count of 0. *)
Theorem remap_all_transparent img oa ta :
  image_ok img → (∀ p, p ∈ data img → alpha p = 0) →
  _detect_alpha_modes img = Ok (None, None)
  ∧ remap img oa ta = Ok (img, 0, (None, None)).
Proof.
  intros Hok Hzero.
  assert (∀ v, ¬ nonzero_alpha img v) as Hno.
  { intros v (Hv & p & Hp & Ha). rewrite (Hzero p Hp) in Ha. lia. }
  assert (_detect_alpha_modes img = Ok (None, None)) as Hdet.
  { destruct (detect_cases img Hok)
      as [[E _] | [(V & E & HV) | (hi & lo & E & _ & Hhi & _)]]; [done | |].
    - destruct (Hno V). by apply HV.
    - by destruct (Hno hi). }
  split; [done |].
  destruct (remap_spec_clip img oa ta Hok) as (hi & lo & Hdet' & Hrun).
  rewrite Hdet in Hdet'. simplify_eq. rewrite Hrun.
  assert (∀ p, p ∈ data img → rule_applies None None (alpha p) = false)
    as Hrule by (intros p Hp; by rewrite (Hzero p Hp)).
  rewrite applied_count_none by done.
  rewrite fmap_id_on.
  - by destruct img.
  - intros p Hp. rewrite remap_pixel_id.
    + apply clip_pixel_ok. destruct Hok as [_ Hpx].
      rewrite Forall_forall in Hpx. by apply Hpx.
    + apply remap_alpha_no_rule. by apply Hrule.
Qed.

Lemma remap_all_transparent_witness :
  image_ok img_clear ∧ (∀ p, p ∈ data img_clear → alpha p = 0)
  ∧ _detect_alpha_modes img_clear = Ok (None, None)
  ∧ remap img_clear 102 38 = Ok (img_clear, 0, (None, None)).
Proof.
  assert (image_ok img_clear) as Hok by solve_image_ok.
  assert (∀ p, p ∈ data img_clear → alpha p = 0) as Hz.
  { intros p Hp. cbn in Hp.
    apply elem_of_cons in Hp as [-> | Hp]; [reflexivity |].
    apply elem_of_cons in Hp as [-> | Hp]; [reflexivity |].
    by apply elem_of_nil in Hp. }
  split; [exact Hok |]. split; [exact Hz |].
  exact (remap_all_transparent img_clear 102 38 Hok Hz).
Defined.

(** C6. For every decoded image and every pair of 8-bit targets the
    remapper returns an image with the same width and height and the same
    number of pixels, in which every pixel has the red, green and blue of
    the input pixel at the same place; a pixel whose alpha differs from the
    input had the alpha of a detected mode. *)
Theorem remap_frame img oa ta :
  image_ok img → channel_ok oa → channel_ok ta →
  ∃ out changed hi lo,
    remap img oa ta = Ok (out, changed, (hi, lo))
    ∧ _detect_alpha_modes img = Ok (hi, lo)
    ∧ size out = size img ∧ length (data out) = length (data img)
    ∧ ∀ i p, data img !! i = Some p →
        ∃ q, data out !! i = Some q
          ∧ red q = red p ∧ green q = green p ∧ blue q = blue p
          ∧ (alpha q ≠ alpha p →
             hi = Some (alpha p) ∨ lo = Some (alpha p)).
Proof.
  intros Hok Hoa Hta.
  destruct (remap_spec img oa ta Hok Hoa Hta) as (hi & lo & Hdet & Hrun).
  eexists _, _, hi, lo. split; [exact Hrun |]. split; [done |]. simpl.
  split; [done |]. split; [by rewrite length_fmap |].
  intros i p Hp. exists (remap_pixel hi lo oa ta p).
  split; [by rewrite list_lookup_fmap, Hp |].
  repeat (split; [done |]). rewrite remap_pixel_alpha.
  apply (remap_alpha_changed img); [done | done |].
  by eapply list_elem_of_lookup_2.
Qed.

Lemma remap_frame_witness :
  image_ok img_three ∧ channel_ok 26 ∧ channel_ok 64
  ∧ ∃ out changed hi lo,
      remap img_three 26 64 = Ok (out, changed, (hi, lo))
      ∧ _detect_alpha_modes img_three = Ok (hi, lo)
      ∧ size out = size img_three
      ∧ length (data out) = length (data img_three)
      ∧ ∀ i p, data img_three !! i = Some p →
          ∃ q, data out !! i = Some q
            ∧ red q = red p ∧ green q = green p ∧ blue q = blue p
            ∧ (alpha q ≠ alpha p →
               hi = Some (alpha p) ∨ lo = Some (alpha p)).
Proof.
  assert (image_ok img_three) as Hok by solve_image_ok.
  assert (channel_ok 26) as H26 by (unfold channel_ok; lia).
  assert (channel_ok 64) as H64 by (unfold channel_ok; lia).
  split; [exact Hok |]. split; [exact H26 |]. split; [exact H64 |].
  exact (remap_frame img_three 26 64 Hok H26 H64).
Defined.

Example remap_img_three :
  remap img_three 26 64
  = Ok (mkImage (3%nat, 2%nat)
          [(1, 1, 1, 64); (2, 2, 2, 200); (3, 3, 3, 26);
           (4, 4, 4, 26); (5, 5, 5, 0); (6, 6, 6, 64)],
        4, (Some 90, Some 50)).
Proof. vm_compute. reflexivity. Qed.

(** C5 fails in the identity case: both pixels of [img2x1] are counted
    although neither alpha changes. *)
Lemma count_is_alpha_changes_fails : ¬ count_is_alpha_changes.
Proof.
  intros Hclaim.
  assert (2 = alpha_diff_count (data img2x1) (data img2x1)) as Habs.
  { apply (Hclaim img2x1 102 38 img2x1 2 (Some 102, Some 38)).
    - solve_image_ok.
    - unfold channel_ok. lia.
    - unfold channel_ok. lia.
    - vm_compute. reflexivity. }
  vm_compute in Habs. discriminate.
Qed.

(** C5, amended.  The diagnostic count is the number of pixels a
    remapping rule applies to (alpha > 0 when the low mode is absent, else
    alpha equal to a detected mode); it is at least the number of pixels
    whose alpha differs.  When the targets equal the two detected modes the
    output image is the input image. *)
Theorem remap_count img oa ta :
  image_ok img → channel_ok oa → channel_ok ta →
  ∃ out changed hi lo,
    remap img oa ta = Ok (out, changed, (hi, lo))
    ∧ changed = applied_count hi lo (data img)
    ∧ alpha_diff_count (data img) (data out) ≤ changed
    ∧ (hi = Some oa → lo = Some ta → out = img).
Proof.
  intros Hok Hoa Hta.
  destruct (remap_spec img oa ta Hok Hoa Hta) as (hi & lo & Hdet & Hrun).
  eexists _, _, hi, lo. split; [exact Hrun |]. split; [done |]. simpl.
  split; [apply alpha_diff_le_applied |].
  intros -> ->.
  assert (ta ≠ 0) as Hnz.
  { assert (nonzero_alpha img ta) as [? _]; [| lia].
    eapply detect_modes_nonzero; eauto. }
  rewrite fmap_id_on; [by destruct img |].
  intros p _. apply remap_pixel_id. rewrite remap_alpha_two by done.
  repeat case_bool_decide; congruence.
Qed.

Lemma remap_count_witness :
  image_ok img2x1 ∧ channel_ok 102 ∧ channel_ok 38
  ∧ ∃ out changed hi lo,
      remap img2x1 102 38 = Ok (out, changed, (hi, lo))
      ∧ changed = applied_count hi lo (data img2x1)
      ∧ alpha_diff_count (data img2x1) (data out) ≤ changed
      ∧ (hi = Some 102 → lo = Some 38 → out = img2x1).
Proof.
  assert (image_ok img2x1) as Hok by solve_image_ok.
  assert (channel_ok 102) as H102 by (unfold channel_ok; lia).
  assert (channel_ok 38) as H38 by (unfold channel_ok; lia).
  split; [exact Hok |]. split; [exact H102 |]. split; [exact H38 |].
  exact (remap_count img2x1 102 38 Hok H102 H38).
Defined.

(** C4 fails: with a corrupt [a.png] the readable [b.PNG] of the same
    folder is never transformed. *)
Lemma failures_isolated_fails : ¬ failures_isolated.
Proof.
  intros Hclaim. destruct (Hclaim fs_corrupt world0) as [_ Hall].
  specialize (Hall
    (Transform "/mod/graphics/base/edge/b.PNG"
       "/mod/graphics/a40_15/edge/b.PNG" 102 38)
    ("/mod/graphics/a40_15/edge/b.PNG", img2x1)).
  assert (("/mod/graphics/a40_15/edge/b.PNG", img2x1)
          ∈ saved (script fs_corrupt world0).2) as Hin.
  { apply Hall.
    - vm_compute. do 2 apply list_elem_of_further. apply list_elem_of_here.
    - vm_compute. reflexivity.
    - vm_compute. apply list_elem_of_here. }
  vm_compute in Hin. by apply elem_of_nil in Hin.
Qed.

(** A step whose input cannot be opened fails and saves nothing. *)
Lemma step_open_fails fs i o oa ta e :
  open_rgba fs i = Raise e →
  step_ok fs (Transform i o oa ta) = false
  ∧ step_files fs (Transform i o oa ta) = [].
Proof.
  intros Hopen. unfold step_ok, step_files. cbn [run_step].
  rewrite transform_image_eq, Hopen. done.
Qed.

(** C4, amended.  A failing step ends the run with exit status 1.  A
    failure is not isolated: the run stops at the first step that fails,
    having saved the files of the steps before it and what the failing
    step itself had saved when it raised, and nothing after.  In
    particular an image that cannot be opened ends the batch: the files
    of the steps before it are saved, and no other. *)
Theorem failure_stops_batch fs w status w' :
  script fs w = (status, w') →
  ((∃ s, s ∈ plan fs ∧ step_ok fs s = false) → status = 1)
  ∧ (∀ done s rest,
       plan fs = done ++ s :: rest →
       all_ok fs done = true → step_ok fs s = false →
       saved w' = saved w ++ outputs fs done ++ step_files fs s)
  ∧ (∀ done i o oa ta rest e,
       plan fs = done ++ Transform i o oa ta :: rest →
       all_ok fs done = true → open_rgba fs i = Raise e →
       saved w' = saved w ++ outputs fs done).
Proof.
  unfold script. pose proof (main_spec fs w) as Hmain.
  assert (∀ done s rest,
            plan fs = done ++ s :: rest →
            all_ok fs done = true → step_ok fs s = false →
            saved (main fs w).2 = saved w ++ outputs fs done ++ step_files fs s)
    as Hstop.
  { intros done s rest Hplan Hdone Hfail.
    rewrite main_world, Hplan, (started_fail fs _ _ _ Hdone Hfail).
    unfold after. cbn [saved]. by rewrite outputs_app, outputs_single. }
  destruct (main fs w) as [[st | e] w1]; intros [= <- <-]; cbn [snd] in Hstop.
  - destruct Hmain as (-> & Hok & _).
    pose proof (proj1 (all_ok_forall fs _) Hok) as Hall.
    split; [| split].
    + intros (s & Hs & Hfail). rewrite (Hall s Hs) in Hfail. done.
    + exact Hstop.
    + intros done i o oa ta rest e Hplan Hdone Hopen.
      destruct (step_open_fails fs i o oa ta e Hopen) as [Hfail Hnone].
      rewrite (Hstop _ _ _ Hplan Hdone Hfail), Hnone. by rewrite app_nil_r.
  - split; [done |]. split; [exact Hstop |].
    intros done i o oa ta rest e' Hplan Hdone Hopen.
    destruct (step_open_fails fs i o oa ta e' Hopen) as [Hfail Hnone].
    rewrite (Hstop _ _ _ Hplan Hdone Hfail), Hnone. by rewrite app_nil_r.
Qed.

Lemma failure_stops_batch_witness :
  open_rgba fs_corrupt_second "/mod/graphics/base/edge/b.PNG" = Raise OSError
  ∧ (script fs_corrupt_second world0).1 = 1
  ∧ saved (script fs_corrupt_second world0).2
    = saved world0
      ++ outputs fs_corrupt_second
           [Mkdir "/mod/graphics/a40_15/edge";
            Transform "/mod/graphics/base/edge/a.png"
              "/mod/graphics/a40_15/edge/a.png" 102 38].
Proof.
  destruct (failure_stops_batch fs_corrupt_second world0
              (script fs_corrupt_second world0).1
              (script fs_corrupt_second world0).2
              (surjective_pairing _)) as (Hstatus & _ & Hcorrupt).
  split; [reflexivity |]. split.
  - apply Hstatus.
    exists (Transform "/mod/graphics/base/edge/b.PNG"
              "/mod/graphics/a40_15/edge/b.PNG" 102 38).
    split; [| vm_compute; reflexivity].
    vm_compute. do 2 apply list_elem_of_further. apply list_elem_of_here.
  - apply (Hcorrupt _ "/mod/graphics/base/edge/b.PNG"
             "/mod/graphics/a40_15/edge/b.PNG" 102 38
             (drop 3 (plan fs_corrupt_second)) OSError).
    + vm_compute. reflexivity.
    + vm_compute. reflexivity.
    + reflexivity.
Defined.

Example script_fs_corrupt_second :
  script fs_corrupt_second world0
  = (1, mkWorld [("/mod/graphics/a40_15/edge/a.png", img2x1)]
          [Processed "/mod/graphics/base/edge/a.png"
             "/mod/graphics/a40_15/edge/a.png" 2 (Some 102) (Some 38) 38]
          ["/mod/graphics/base/edge/a.png"; "/mod/graphics/base/edge/b.PNG"]).
Proof. vm_compute. reflexivity. Qed.

(** A line that cannot be printed ends the batch as well, after the file
    it reports has been saved. *)
Example script_fs_unprintable :
  script fs_unprintable world0
  = (1, mkWorld [("/mod/graphics/a40_15/edge/a.png", img2x1)] []
          ["/mod/graphics/base/edge/a.png"]).
Proof. vm_compute. reflexivity. Qed.

Lemma Forall2_elem_of_l {A B : Type} (P : A → B → Prop) l k x :
  Forall2 P l k → x ∈ l → ∃ y, y ∈ k ∧ P x y.
Proof.
  intros HF (i & Hi)%list_elem_of_lookup_1.
  destruct (Forall2_lookup_l _ _ _ _ _ HF Hi) as (y & Hy & HP).
  exists y. split; [by eapply list_elem_of_lookup_2 | done].
Qed.

(** C8. A missing input folder is skipped: [process_folder] prints its
    line and returns 0 without raising, having saved nothing.  A folder
    that is processed returns the number of its [.png] entries, which is
    the number of files it saved.  And the batch goes on: when no step
    fails, whichever folders are missing, [main] returns 0; it has printed
    the line of every missing folder and saved the remapped image of every
    [.png] entry of every folder that exists, for every variant; and the
    total it reports is the number of files it saved, to which a missing
    folder contributes nothing. *)
Theorem missing_folder_skipped fs w :
  (∀ in_dir out_dir oa ta,
     isdir fs in_dir = false →
     print_exn fs (Skip_missing in_dir) = None →
     process_folder fs in_dir out_dir oa ta w
     = (Ok 0,
        mkWorld (saved w) (stdout w ++ [Skip_missing in_dir]) (opened w)))
  ∧ (∀ in_dir out_dir oa ta n w',
       channel_ok oa → channel_ok ta →
       process_folder fs in_dir out_dir oa ta w = (Ok n, w') →
       n = png_count fs in_dir
       ∧ ∃ new, saved w' = saved w ++ new ∧ Z.of_nat (length new) = n)
  ∧ (all_ok fs (plan fs) = true →
     ∃ w' new ms,
       main fs w = (Ok 0, w')
       ∧ saved w' = saved w ++ new
       ∧ stdout w' = stdout w ++ ms ++ [Done (Z.of_nat (length new)) 3]
       ∧ Z.of_nat (length new) = 3 * input_count fs
       ∧ (∀ kind,
            kind ∈ KINDS →
            isdir fs (path_join (path_join (GFX fs) "base") kind) = false →
            Skip_missing (path_join (path_join (GFX fs) "base") kind) ∈ ms)
       ∧ (∀ v kind name,
            v ∈ VARIANTS → kind ∈ KINDS →
            isdir fs (path_join (path_join (GFX fs) "base") kind) = true →
            name ∈ listdir fs (path_join (path_join (GFX fs) "base") kind) →
            is_png name = true →
            ∃ f, f ∈ new
              ∧ transformed fs (path_join (path_join (GFX fs) "base") kind)
                  (path_join (variant_root fs (tag v)) kind)
                  (round (255 * opaque_alpha v))
                  (round (255 * transparent_alpha v)) name f)).
Proof.
  split; [| split].
  - intros in_dir out_dir oa ta Hdir Hprint. unfold process_folder.
    rewrite Hdir. cbn [negb]. rewrite io_bind_eq. unfold print.
    by rewrite Hprint.
  - intros in_dir out_dir oa ta n w' _ _ Hrun.
    pose proof (process_folder_refines fs in_dir out_dir oa ta w) as Href.
    rewrite Hrun in Href. destruct Href as (Hok & -> & ->).
    split; [apply files_of_folder_plan |].
    eexists. split; [reflexivity |]. by apply outputs_length.
  - intros Hok. pose proof (main_spec fs w) as Hmain.
    destruct (main fs w) as [[status | e] w'];
      [| destruct Hmain as [Hnok _]; congruence].
    destruct Hmain as (-> & _ & ->).
    pose proof (proj1 (all_ok_forall fs _) Hok) as Hall.
    destruct (last_lines_plan fs Hok) as (ms & Hms).
    assert (Z.of_nat (length (outputs fs (plan fs))) = 3 * input_count fs)
      as Hlen by (by rewrite outputs_length, files_of_plan).
    exists (after fs w (plan fs)), (outputs fs (plan fs)), ms.
    split; [done |]. split; [done |]. split.
    { unfold after. cbn [stdout]. by rewrite Hms, Hlen. }
    split; [done |]. split.
    + intros kind Hkind Hdir.
      assert (mkVariant "a40_15" (40 # 100) (15 # 100) ∈ VARIANTS) as Hv
        by apply list_elem_of_here.
      pose proof (folder_plan_in_plan fs _ kind
                    (Say (Skip_missing
                            (path_join (path_join (GFX fs) "base") kind)))
                    Hv Hkind) as Hin.
      unfold folder_plan in Hin. rewrite Hdir in Hin.
      specialize (Hin (list_elem_of_here _ _)).
      assert (Skip_missing (path_join (path_join (GFX fs) "base") kind)
              ∈ lines fs (plan fs)) as Hline.
      { apply elem_of_lines. eexists. split; [exact Hin |].
        rewrite step_say_lines by (by apply Hall).
        apply list_elem_of_here. }
      rewrite Hms in Hline. apply elem_of_app in Hline as [Hline | Hline];
        [done |].
      by apply list_elem_of_singleton in Hline.
    + intros v kind name Hv Hkind Hdir Hname Hpng.
      pose proof (folder_plan_in_plan fs v kind) as Hin.
      assert (all_ok fs
                (folder_plan fs (path_join (path_join (GFX fs) "base") kind)
                   (path_join (variant_root fs (tag v)) kind)
                   (round (255 * opaque_alpha v))
                   (round (255 * transparent_alpha v))) = true) as Hfolder.
      { apply all_ok_forall. intros s Hs. apply Hall. by apply Hin. }
      destruct (Forall2_elem_of_l _ _ _ name
                  (process_folder_files fs _ _ _ _ Hdir Hfolder))
        as (f & Hf & Htr).
      { apply list_elem_of_filter. split; [by rewrite Hpng | done]. }
      exists f. split; [| done].
      apply elem_of_outputs in Hf as (s & Hs & Hf).
      apply elem_of_outputs. exists s. split; [by apply Hin | done].
Qed.

Lemma missing_folder_skipped_witness :
  process_folder fs_corner_only (EDGES_IN fs_corner_only)
    "/mod/graphics/a40_15/edge" 102 38 world0
  = (Ok 0, mkWorld [] [Skip_missing (EDGES_IN fs_corner_only)] [])
  ∧ (1 = png_count fs_corner_only (CORNERS_IN fs_corner_only)
     ∧ ∃ new,
         saved (process_folder fs_corner_only (CORNERS_IN fs_corner_only)
                  "/mod/graphics/a40_15/corner" 102 38 world0).2
         = saved world0 ++ new
         ∧ Z.of_nat (length new) = 1)
  ∧ ∃ w' new ms,
      main fs_corner_only world0 = (Ok 0, w')
      ∧ saved w' = new
      ∧ stdout w' = ms ++ [Done (Z.of_nat (length new)) 3]
      ∧ Z.of_nat (length new) = 3 * input_count fs_corner_only
      ∧ Skip_missing "/mod/graphics/base/edge" ∈ ms
      ∧ ∃ f, f ∈ new
          ∧ transformed fs_corner_only "/mod/graphics/base/corner"
              "/mod/graphics/a10_25/corner" 26 64 "c.png" f.
Proof.
  destruct (missing_folder_skipped fs_corner_only world0)
    as (Hskip & Hcount & Hmain).
  split; [apply Hskip; reflexivity |]. split.
  { apply (Hcount (CORNERS_IN fs_corner_only) "/mod/graphics/a40_15/corner"
             102 38 1).
    - unfold channel_ok. lia.
    - unfold channel_ok. lia.
    - vm_compute. reflexivity. }
  destruct Hmain as (w' & new & ms & Hrun & Hsaved & Hout & Hlen & Hmiss & Hall);
    [vm_compute; reflexivity |].
  exists w', new, ms. split; [exact Hrun |]. split; [exact Hsaved |].
  split; [exact Hout |]. split; [exact Hlen |]. split.
  - apply (Hmiss "edge"); [apply list_elem_of_here | reflexivity].
  - apply (Hall (mkVariant "a10_25" (10 # 100) (25 # 100)) "corner" "c.png").
    + do 2 apply list_elem_of_further. apply list_elem_of_here.
    + apply list_elem_of_further, list_elem_of_here.
    + reflexivity.
    + apply list_elem_of_here.
    + reflexivity.
Defined.

(** The run goes on after a missing folder, in every variant. *)
Example script_fs_corner_only :
  (script fs_corner_only world0).1 = 0
  ∧ stdout (script fs_corner_only world0).2
    = [Skip_missing "/mod/graphics/base/edge";
       Processed "/mod/graphics/base/corner/c.png"
         "/mod/graphics/a40_15/corner/c.png" 2 (Some 200) None 38;
       Skip_missing "/mod/graphics/base/center";
       Skip_missing "/mod/graphics/base/edge";
       Processed "/mod/graphics/base/corner/c.png"
         "/mod/graphics/a20_075/corner/c.png" 2 (Some 200) None 19;
       Skip_missing "/mod/graphics/base/center";
       Skip_missing "/mod/graphics/base/edge";
       Processed "/mod/graphics/base/corner/c.png"
         "/mod/graphics/a10_25/corner/c.png" 2 (Some 200) None 26;
       Skip_missing "/mod/graphics/base/center";
       Done 3 3].
Proof. vm_compute. done. Qed.

Example script_fs_good_total :
  last (stdout (script fs_good world0).2) = Some (Done 6 3)
  ∧ (script fs_good world0).1 = 0
  ∧ length (saved (script fs_good world0).2) = 6%nat.
Proof. vm_compute. done. Qed.

(** * Further properties of the detector and the remapper *)

Lemma alpha_count_fmap v l :
  alpha_count v l = Z.of_nat (length (filter (λ a, a = v) (alpha <$> l))).
Proof.
  unfold alpha_count. f_equal.
  induction l as [|p l IH]; [done |]. rewrite fmap_cons, !filter_cons.
  destruct (decide (alpha p = v)); cbn [length]; by rewrite IH.
Qed.

Lemma alpha_count_Permutation v l1 l2 :
  alpha <$> l1 ≡ₚ alpha <$> l2 → alpha_count v l1 = alpha_count v l2.
Proof. intros Hperm. rewrite !alpha_count_fmap. by rewrite Hperm. Qed.

(** The detector sees an image only through the number of pixels of each
    non-zero alpha. *)
Lemma detect_alpha_counts img1 img2 :
  image_ok img1 → image_ok img2 →
  (∀ v, alpha_count v (data img1) = alpha_count v (data img2)) →
  _detect_alpha_modes img1 = _detect_alpha_modes img2.
Proof.
  intros Hok1 Hok2 Hcnt.
  destruct (detect_spec img1 Hok1) as (s1 & Hs1 & Hnd1 & Hsort1 & ->).
  destruct (detect_spec img2 Hok2) as (s2 & Hs2 & Hnd2 & Hsort2 & ->).
  enough (s1 = s2) by congruence.
  apply (StronglySorted_unique key_ge); [done | done |].
  apply NoDup_Permutation; [done | done |].
  intros t. rewrite Hs1, Hs2. unfold entry. by rewrite Hcnt.
Qed.

(** X1. The modes depend only on how many pixels have each alpha value:
    two decoded images whose alpha values are the same up to order get the
    same modes, whatever their colours, their dimensions and the places of
    the pixels. *)
Theorem detect_ignores_order_and_colour img1 img2 :
  image_ok img1 → image_ok img2 →
  alpha <$> data img1 ≡ₚ alpha <$> data img2 →
  _detect_alpha_modes img1 = _detect_alpha_modes img2.
Proof.
  intros Hok1 Hok2 Hperm. apply detect_alpha_counts; [done | done |].
  intros v. by apply alpha_count_Permutation.
Qed.

Lemma detect_ignores_order_and_colour_witness :
  image_ok img_three ∧ image_ok img_three_shuffled
  ∧ _detect_alpha_modes img_three = _detect_alpha_modes img_three_shuffled.
Proof.
  assert (image_ok img_three) as Hok1 by solve_image_ok.
  assert (image_ok img_three_shuffled) as Hok2 by solve_image_ok.
  split; [exact Hok1 |]. split; [exact Hok2 |].
  apply (detect_ignores_order_and_colour _ _ Hok1 Hok2).
  apply (bool_decide_unpack _). vm_compute. exact I.
Defined.

Lemma detect_exactly_two img A B :
  image_ok img → B < A → (∀ v, nonzero_alpha img v ↔ v = A ∨ v = B) →
  _detect_alpha_modes img = Ok (Some A, Some B).
Proof.
  intros Hok Hlt Hset.
  destruct (detect_cases img Hok)
    as [[E Hno] | [(V & E & HV) | (hi & lo & E & Hlt' & Hhi & Hlo & _)]].
  - destruct (Hno A). apply Hset. by left.
  - assert (A = V) by (apply HV, Hset; by left).
    assert (B = V) by (apply HV, Hset; by right). lia.
  - apply Hset in Hhi, Hlo. rewrite E. repeat f_equal; lia.
Qed.

Lemma detect_exactly_one img V :
  image_ok img → (∀ v, nonzero_alpha img v ↔ v = V) →
  _detect_alpha_modes img = Ok (Some V, None).
Proof.
  intros Hok Hset.
  destruct (detect_cases img Hok)
    as [[E Hno] | [(V' & E & HV) | (hi & lo & E & Hlt' & Hhi & Hlo & _)]].
  - destruct (Hno V). by apply Hset.
  - assert (V = V') by (by apply HV, Hset). by subst.
  - apply Hset in Hhi, Hlo. lia.
Qed.

Lemma remap_alpha_cases hi lo oa ta a :
  remap_alpha hi lo oa ta a = Z.min oa ta
  ∨ remap_alpha hi lo oa ta a = oa
  ∨ remap_alpha hi lo oa ta a = ta
  ∨ remap_alpha hi lo oa ta a = a.
Proof.
  unfold remap_alpha.
  destruct (none_or_zero lo && bool_decide (a > 0)); [by left |].
  destruct (is_mode hi a); [by right; left |].
  destruct (is_mode lo a); [by right; right; left | by right; right; right].
Qed.

Lemma remap_pixel_ok hi lo oa ta p :
  channel_ok oa → channel_ok ta → pixel_ok p →
  pixel_ok (remap_pixel hi lo oa ta p).
Proof.
  intros Hoa Hta (Hr & Hg & Hb & Ha).
  split; [exact Hr |]. split; [exact Hg |]. split; [exact Hb |].
  rewrite remap_pixel_alpha. unfold channel_ok in *.
  destruct (remap_alpha_cases hi lo oa ta (alpha p))
    as [-> | [-> | [-> | ->]]]; lia.
Qed.

(** The modes found on a decoded image are non-zero, so alpha 0 is never
    remapped. *)
Lemma remap_alpha_zero img hi lo oa ta :
  image_ok img → _detect_alpha_modes img = Ok (hi, lo) →
  remap_alpha hi lo oa ta 0 = 0.
Proof.
  intros Hok Hdet. apply remap_alpha_no_rule. unfold rule_applies.
  rewrite bool_decide_eq_false_2, andb_false_r by lia. cbn.
  assert (∀ m, hi = Some m ∨ lo = Some m → m ≠ 0) as Hm.
  { intros m Hm. destruct (detect_modes_nonzero img hi lo m Hok Hdet Hm). lia. }
  destruct hi as [h|], lo as [l|]; cbn;
    rewrite ?bool_decide_eq_false_2; try done;
    intros Heq; symmetry in Heq; revert Heq; apply Hm; auto.
Qed.

(** X2. The image handed to the encoder is again a well-formed 8-bit RGBA
    image: for a decoded image and 8-bit targets the remapper returns an
    image with [width * height] pixels whose four channels are all in
    0..255. *)
Theorem remap_output_ok img oa ta :
  image_ok img → channel_ok oa → channel_ok ta →
  ∃ out changed modes,
    remap img oa ta = Ok (out, changed, modes) ∧ image_ok out.
Proof.
  intros Hok Hoa Hta.
  destruct (remap_spec img oa ta Hok Hoa Hta) as (hi & lo & Hdet & Hrun).
  eexists _, _, _. split; [exact Hrun |]. destruct Hok as [Hlen Hpx].
  split; cbn.
  - by rewrite length_fmap.
  - apply Forall_fmap. eapply Forall_impl; [exact Hpx |].
    intros p Hp. by apply remap_pixel_ok.
Qed.

Lemma remap_output_ok_witness :
  image_ok img_three ∧ channel_ok 26 ∧ channel_ok 64
  ∧ ∃ out changed modes,
      remap img_three 26 64 = Ok (out, changed, modes) ∧ image_ok out.
Proof.
  assert (image_ok img_three) as Hok by solve_image_ok.
  assert (channel_ok 26) as H26 by (unfold channel_ok; lia).
  assert (channel_ok 64) as H64 by (unfold channel_ok; lia).
  split; [exact Hok |]. split; [exact H26 |]. split; [exact H64 |].
  exact (remap_output_ok img_three 26 64 Hok H26 H64).
Defined.

(** X3. The fully transparent background is preserved: every pixel of
    alpha 0 is copied unchanged, whatever the modes and the targets; and
    when both targets are non-zero no other pixel becomes transparent, so
    the output is transparent exactly where the input is. *)
Theorem remap_keeps_transparency img oa ta :
  image_ok img → channel_ok oa → channel_ok ta →
  ∃ out changed modes,
    remap img oa ta = Ok (out, changed, modes)
    ∧ (∀ i p, data img !! i = Some p → alpha p = 0 →
              data out !! i = Some p)
    ∧ (oa ≠ 0 → ta ≠ 0 →
       ∀ i q, data out !! i = Some q → alpha q = 0 →
              data img !! i = Some q).
Proof.
  intros Hok Hoa Hta.
  destruct (remap_spec img oa ta Hok Hoa Hta) as (hi & lo & Hdet & Hrun).
  eexists _, _, _. split; [exact Hrun |]. cbn. split.
  - intros i p Hp Ha. rewrite list_lookup_fmap, Hp. cbn. f_equal.
    apply remap_pixel_id. rewrite Ha. by eapply remap_alpha_zero.
  - intros Hoa0 Hta0 i q Hq Ha. rewrite list_lookup_fmap in Hq.
    destruct (data img !! i) as [p|]; [| done]. cbn in Hq.
    injection Hq as <-. f_equal. symmetry. apply remap_pixel_id.
    rewrite remap_pixel_alpha in Ha.
    destruct (remap_alpha_cases hi lo oa ta (alpha p))
      as [E | [E | [E | E]]]; rewrite E in Ha; [lia | done | done | done].
Qed.

Lemma remap_keeps_transparency_witness :
  image_ok img_single ∧ channel_ok 102 ∧ channel_ok 38
  ∧ ∃ out changed modes,
      remap img_single 102 38 = Ok (out, changed, modes)
      ∧ (∀ i p, data img_single !! i = Some p → alpha p = 0 →
                data out !! i = Some p)
      ∧ ∀ i q, data out !! i = Some q → alpha q = 0 →
               data img_single !! i = Some q.
Proof.
  assert (image_ok img_single) as Hok by solve_image_ok.
  assert (channel_ok 102) as H102 by (unfold channel_ok; lia).
  assert (channel_ok 38) as H38 by (unfold channel_ok; lia).
  split; [exact Hok |]. split; [exact H102 |]. split; [exact H38 |].
  destruct (remap_keeps_transparency img_single 102 38 Hok H102 H38)
    as (out & changed & modes & Hrun & Hkeep & Hback).
  exists out, changed, modes. split; [exact Hrun |]. split; [exact Hkeep |].
  apply Hback; lia.
Defined.

(** ** Running the remapper on its own output *)

Lemma image_ok_remapped img hi lo oa ta :
  image_ok img → channel_ok oa → channel_ok ta →
  image_ok (mkImage (size img) (remap_pixel hi lo oa ta <$> data img)).
Proof.
  intros [Hlen Hpx] Hoa Hta. split; cbn.
  - by rewrite length_fmap.
  - apply Forall_fmap. eapply Forall_impl; [exact Hpx |].
    intros p Hp. by apply remap_pixel_ok.
Qed.

Lemma alpha_of_two img A B p :
  image_ok img → (∀ v, nonzero_alpha img v ↔ v = A ∨ v = B) →
  p ∈ data img → alpha p = 0 ∨ alpha p = A ∨ alpha p = B.
Proof.
  intros Hok Hset Hp. pose proof (alpha_nonneg img p Hok Hp) as Hge.
  destruct (decide (alpha p = 0)) as [| Hne]; [by left |]. right.
  apply Hset. split; [lia | eauto].
Qed.

(** After the first pass over an image with the two non-zero alphas
    [A > B], the non-zero alphas are the two targets. *)
Lemma nonzero_alpha_remapped img A B oa ta v :
  image_ok img → B < A → (∀ v, nonzero_alpha img v ↔ v = A ∨ v = B) →
  oa > 0 → ta > 0 →
  nonzero_alpha
    (mkImage (size img) (remap_pixel (Some A) (Some B) oa ta <$> data img)) v
  ↔ v = oa ∨ v = ta.
Proof.
  intros Hok Hlt Hset Hoa Hta.
  assert (B ≠ 0) as HB.
  { assert (nonzero_alpha img B) as [? _] by (apply Hset; by right). lia. }
  unfold nonzero_alpha at 1. cbn. split.
  - intros (Hv & q & Hq & Ha). apply list_elem_of_fmap in Hq as (p & -> & Hp).
    rewrite remap_pixel_alpha, remap_alpha_two in Ha by done.
    destruct (alpha_of_two img A B p Hok Hset Hp) as [E | [E | E]];
      rewrite E in Ha; repeat case_bool_decide; lia.
  - assert (∀ a t, nonzero_alpha img a →
              remap_alpha (Some A) (Some B) oa ta a = t → t > 0 →
              t > 0 ∧ ∃ q, q ∈ remap_pixel (Some A) (Some B) oa ta <$> data img
                           ∧ alpha q = t) as Hex.
    { intros a t (_ & p & Hp & <-) <- Ht. split; [done |].
      exists (remap_pixel (Some A) (Some B) oa ta p).
      split; [by apply list_elem_of_fmap_2 | done]. }
    intros [-> | ->].
    + apply (Hex A); [apply Hset; by left | | done].
      rewrite remap_alpha_two by done. by rewrite bool_decide_eq_true_2.
    + apply (Hex B); [apply Hset; by right | | done].
      rewrite remap_alpha_two by done.
      rewrite bool_decide_eq_false_2 by lia. by rewrite bool_decide_eq_true_2.
Qed.

(** X4. Running the remapper again on its own output changes nothing when
    the opaque target is not below the transparent one: for an image with
    exactly two non-zero alpha values and targets
    [1 <= transparent_alpha <= opaque_alpha <= 255], the second pass
    returns the image the first pass returned. *)
Theorem remap_twice_stable img A B oa ta :
  image_ok img → B < A → (∀ v, nonzero_alpha img v ↔ v = A ∨ v = B) →
  1 ≤ ta → ta ≤ oa → oa ≤ 255 →
  ∃ out changed modes,
    remap img oa ta = Ok (out, changed, modes)
    ∧ ∃ changed' modes', remap out oa ta = Ok (out, changed', modes').
Proof.
  intros Hok Hlt Hset Hta Hle Hoa.
  assert (channel_ok oa ∧ channel_ok ta) as [Hcoa Hcta]
    by (unfold channel_ok; lia).
  destruct (remap_spec img oa ta Hok Hcoa Hcta) as (hi & lo & Hdet & Hrun).
  rewrite (detect_exactly_two img A B Hok Hlt Hset) in Hdet. simplify_eq.
  eexists _, _, _. split; [exact Hrun |].
  set (out := mkImage (size img)
                (remap_pixel (Some A) (Some B) oa ta <$> data img)).
  assert (image_ok out) as Hok'
    by (apply image_ok_remapped; unfold channel_ok; done || lia).
  assert (∀ v, nonzero_alpha out v ↔ v = oa ∨ v = ta) as Hset'.
  { intros v. apply nonzero_alpha_remapped; done || lia. }
  destruct (remap_spec out oa ta Hok' Hcoa Hcta)
    as (hi' & lo' & Hdet' & Hrun').
  enough (remap_pixel hi' lo' oa ta <$> data out = data out) as Hid.
  { eexists _, _. rewrite Hrun', Hid. done. }
  apply fmap_id_on. intros q Hq. apply remap_pixel_id.
  destruct (decide (ta = oa)) as [-> | Hne].
  - rewrite (detect_exactly_one out oa Hok') in Hdet'
      by (intros v; rewrite Hset'; tauto).
    simplify_eq. rewrite remap_alpha_single.
    + case_bool_decide as Hpos; [| done]. rewrite Z.min_id.
      assert (nonzero_alpha out (alpha q)) as Hnz by (split; eauto).
      apply Hset' in Hnz. lia.
    + intros V [= <-]. lia.
    + by eapply alpha_nonneg.
  - rewrite (detect_exactly_two out oa ta Hok') in Hdet' by (done || lia).
    simplify_eq. rewrite remap_alpha_two by lia.
    repeat case_bool_decide; congruence.
Qed.

Lemma nonzero_alpha_img2x1 v :
  nonzero_alpha img2x1 v ↔ v = 102 ∨ v = 38.
Proof.
  unfold nonzero_alpha. cbn. split.
  - intros (_ & p & Hp & <-).
    apply elem_of_cons in Hp as [-> | Hp]; [by left |].
    apply elem_of_cons in Hp as [-> | Hp]; [by right |].
    by apply elem_of_nil in Hp.
  - intros [-> | ->]; (split; [lia |]).
    + exists (255, 0, 0, 102). split; [apply list_elem_of_here | done].
    + exists (0, 255, 0, 38).
      split; [apply list_elem_of_further, list_elem_of_here | done].
Qed.

Lemma remap_twice_stable_witness :
  ∃ out changed modes,
    remap img2x1 51 19 = Ok (out, changed, modes)
    ∧ ∃ changed' modes', remap out 51 19 = Ok (out, changed', modes').
Proof.
  apply (remap_twice_stable img2x1 102 38 51 19).
  - solve_image_ok.
  - lia.
  - exact nonzero_alpha_img2x1.
  - lia.
  - lia.
  - lia.
Defined.

(** X5. With the opaque target below the transparent one (as in variant
    [a10_25]) a second pass undoes the intent of the first: for an image
    with exactly two non-zero alpha values and targets
    [1 <= opaque_alpha < transparent_alpha <= 255], running the remapper on
    its own output gives the image a single pass with the two targets
    exchanged gives. *)
Theorem remap_twice_swaps img A B oa ta :
  image_ok img → B < A → (∀ v, nonzero_alpha img v ↔ v = A ∨ v = B) →
  1 ≤ oa → oa < ta → ta ≤ 255 →
  ∃ out1 out2 c1 m1 c2 m2 c3 m3,
    remap img oa ta = Ok (out1, c1, m1)
    ∧ remap out1 oa ta = Ok (out2, c2, m2)
    ∧ remap img ta oa = Ok (out2, c3, m3).
Proof.
  intros Hok Hlt Hset Hoa Hlt' Hta.
  assert (B ≠ 0) as HB.
  { assert (nonzero_alpha img B) as [? _] by (apply Hset; by right). lia. }
  assert (channel_ok oa ∧ channel_ok ta) as [Hcoa Hcta]
    by (unfold channel_ok; lia).
  destruct (remap_spec img oa ta Hok Hcoa Hcta) as (hi & lo & Hdet & Hrun).
  destruct (remap_spec img ta oa Hok Hcta Hcoa)
    as (hi3 & lo3 & Hdet3 & Hrun3).
  rewrite (detect_exactly_two img A B Hok Hlt Hset) in Hdet, Hdet3.
  simplify_eq.
  set (out := mkImage (size img)
                (remap_pixel (Some A) (Some B) oa ta <$> data img)) in *.
  assert (image_ok out) as Hok'
    by (apply image_ok_remapped; unfold channel_ok; done || lia).
  destruct (remap_spec out oa ta Hok' Hcoa Hcta)
    as (hi' & lo' & Hdet' & Hrun').
  rewrite (detect_exactly_two out ta oa Hok') in Hdet'; [| lia |].
  2:{ intros v. unfold out. rewrite nonzero_alpha_remapped by (done || lia).
      tauto. }
  simplify_eq.
  enough (remap_pixel (Some ta) (Some oa) oa ta <$> data out
          = remap_pixel (Some A) (Some B) ta oa <$> data img) as Hdata.
  { eexists out, _, _, _, _, _, _, _.
    split; [exact Hrun |]. split; [exact Hrun' |].
    rewrite Hrun3, <- Hdata. reflexivity. }
  unfold out. cbn [data]. rewrite <- list_fmap_compose.
  apply list_fmap_ext. intros i p Hp%list_elem_of_lookup_2. cbn.
  unfold remap_pixel at 1 3. cbn [red green blue]. f_equal.
  rewrite !remap_pixel_alpha, !remap_alpha_two by lia.
  destruct (alpha_of_two img A B p Hok Hset Hp) as [E | [E | E]];
    rewrite E; repeat case_bool_decide; lia.
Qed.

Lemma remap_twice_swaps_witness :
  ∃ out1 out2 c1 m1 c2 m2 c3 m3,
    remap img2x1 26 64 = Ok (out1, c1, m1)
    ∧ remap out1 26 64 = Ok (out2, c2, m2)
    ∧ remap img2x1 64 26 = Ok (out2, c3, m3).
Proof.
  apply (remap_twice_swaps img2x1 102 38 26 64).
  - solve_image_ok.
  - lia.
  - exact nonzero_alpha_img2x1.
  - lia.
  - lia.
  - lia.
Defined.

(** * Further properties of the batch driver *)

(** X6. A folder that is processed to the end is mirrored name by name:
    the files saved are, in listing order, one per entry whose lower-cased
    name ends in [.png]; each is saved under the same name in the output
    folder and holds the remapped image of the entry of that name in the
    input folder.  Other entries leave no file. *)
Theorem process_folder_mirrors fs in_dir out_dir oa ta w n w' :
  channel_ok oa → channel_ok ta →
  isdir fs in_dir = true →
  process_folder fs in_dir out_dir oa ta w = (Ok n, w') →
  ∃ new,
    saved w' = saved w ++ new
    ∧ Forall2 (transformed fs in_dir out_dir oa ta)
        (filter (λ name, is_png name) (listdir fs in_dir)) new.
Proof.
  intros _ _ Hdir Hrun.
  pose proof (process_folder_refines fs in_dir out_dir oa ta w) as Href.
  rewrite Hrun in Href. destruct Href as (Hok & _ & ->).
  eexists. split; [reflexivity |]. by apply process_folder_files.
Qed.

Lemma process_folder_mirrors_witness :
  ∃ new,
    saved (process_folder fs_good (EDGES_IN fs_good)
             (edges_out_dir fs_good "a10_25") 26 64 world0).2
    = saved world0 ++ new
    ∧ Forall2 (transformed fs_good (EDGES_IN fs_good)
                 (edges_out_dir fs_good "a10_25") 26 64)
        (filter (λ name, is_png name)
           (listdir fs_good (EDGES_IN fs_good))) new.
Proof.
  apply (process_folder_mirrors fs_good (EDGES_IN fs_good)
           (edges_out_dir fs_good "a10_25") 26 64 world0 2).
  - unfold channel_ok. lia.
  - unfold channel_ok. lia.
  - reflexivity.
  - vm_compute. reflexivity.
Defined.

(** X7. Every variant processes the same inputs: when [main] returns, the
    total it reports, and the number of files it has saved, is three times
    the number of input files (the [.png] entries of the edge, corner and
    center folders that exist, plus the border file if it exists). *)
Theorem main_total_three_per_input fs w status w' :
  main fs w = (Ok status, w') →
  last (stdout w') = Some (Done (3 * input_count fs) 3)
  ∧ Z.of_nat (length (saved w'))
    = Z.of_nat (length (saved w)) + 3 * input_count fs.
Proof.
  intros Hrun. pose proof (main_spec fs w) as Hmain.
  rewrite Hrun in Hmain. destruct Hmain as (_ & Hok & ->).
  destruct (last_lines_plan fs Hok) as (ms & Hms).
  unfold after. cbn [stdout saved]. split.
  - by rewrite Hms, app_assoc, last_snoc.
  - rewrite length_app, Nat2Z.inj_add, outputs_length by done.
    by rewrite files_of_plan.
Qed.

Lemma main_total_three_per_input_witness :
  last (stdout (main fs_good world0).2)
  = Some (Done (3 * input_count fs_good) 3)
  ∧ Z.of_nat (length (saved (main fs_good world0).2))
    = Z.of_nat (length (saved world0)) + 3 * input_count fs_good.
Proof.
  apply (main_total_three_per_input fs_good world0 0).
  vm_compute. reflexivity.
Defined.

(** ** The shape of the plan *)

Section PlanShape.
Variable fs : FileSystem.

Lemma elem_of_file_steps in_dir out_dir oa ta names s :
  s ∈ mjoin (file_steps in_dir out_dir oa ta <$> names) →
  ∃ name, name ∈ names ∧ is_png name = true
    ∧ s = Transform (path_join in_dir name) (path_join out_dir name) oa ta.
Proof.
  intros (l & Hs & Hl)%list_elem_of_join.
  apply list_elem_of_fmap in Hl as (name & -> & Hname).
  unfold file_steps in Hs. destruct (is_png name) eqn:Hpng.
  - apply list_elem_of_singleton in Hs. eauto.
  - by apply elem_of_nil in Hs.
Qed.

Lemma elem_of_folder_plan in_dir out_dir oa ta s :
  s ∈ folder_plan fs in_dir out_dir oa ta →
  s = Mkdir out_dir ∨ s = Say (Skip_missing in_dir)
  ∨ ∃ name, name ∈ listdir fs in_dir ∧ is_png name = true
      ∧ s = Transform (path_join in_dir name) (path_join out_dir name) oa ta.
Proof.
  unfold folder_plan. destruct (isdir fs in_dir).
  - intros [-> | Hs]%elem_of_cons; [by left |]. right. right.
    by apply elem_of_file_steps in Hs.
  - intros ->%list_elem_of_singleton. right. by left.
Qed.

(** A file to transform is an entry of one of the three input folders,
    written under the same name to the folder of that kind of the variant,
    or the border file, written to the border path of the variant. *)
Lemma transform_in_variant_plan v i o oa ta :
  Transform i o oa ta ∈ variant_plan fs v →
  oa = round (255 * opaque_alpha v) ∧ ta = round (255 * transparent_alpha v)
  ∧ ((∃ kind name,
        kind ∈ KINDS
        ∧ name ∈ listdir fs (path_join (path_join (GFX fs) "base") kind)
        ∧ is_png name = true
        ∧ i = path_join (path_join (path_join (GFX fs) "base") kind) name
        ∧ o = path_join (path_join (variant_root fs (tag v)) kind) name)
     ∨ (i = BORDER_IN fs ∧ o = border_out_path fs (tag v))).
Proof.
  unfold variant_plan, KINDS. cbn zeta. rewrite !elem_of_app.
  intros [H | [H | [H | H]]].
  1-3: apply elem_of_folder_plan in H
         as [? | [? | (name & Hn & Hpng & Heq)]]; [done | done |];
    injection Heq as -> -> -> ->; split; [done |];
    split; [done |]; left.
  - exists "edge", name. split; [apply list_elem_of_here | done].
  - exists "corner", name.
    split; [apply list_elem_of_further, list_elem_of_here | done].
  - exists "center", name.
    split; [do 2 apply list_elem_of_further; apply list_elem_of_here | done].
  - destruct (isfile fs (BORDER_IN fs)); [| by apply elem_of_nil in H].
    apply list_elem_of_singleton in H. injection H as -> -> -> ->.
    split; [done |]. split; [done |]. by right.
Qed.

Lemma quiet_variant_plan v s : s ∈ variant_plan fs v → quiet s.
Proof.
  unfold variant_plan. cbn zeta. rewrite !elem_of_app.
  intros [H | [H | [H | H]]].
  1-3: by apply elem_of_folder_plan in H as [-> | [-> | (name & _ & _ & ->)]].
  destruct (isfile fs (BORDER_IN fs)); [| by apply elem_of_nil in H].
  by apply list_elem_of_singleton in H as ->.
Qed.

Lemma elem_of_plan s :
  s ∈ plan fs →
  (∃ v, v ∈ VARIANTS ∧ s ∈ variant_plan fs v)
  ∨ s = Say (Done (files_of (batch fs)) (length VARIANTS)).
Proof.
  unfold plan, batch. intros [Hs | Hs]%elem_of_app.
  - left. apply list_elem_of_join in Hs as (l & Hs & Hl).
    apply list_elem_of_fmap in Hl as (v & -> & Hv). eauto.
  - right. by apply list_elem_of_singleton in Hs.
Qed.

Lemma transform_in_plan i o oa ta :
  Transform i o oa ta ∈ plan fs →
  ∃ v, v ∈ VARIANTS ∧ Transform i o oa ta ∈ variant_plan fs v.
Proof. by intros [Hv | ?]%elem_of_plan. Qed.

Lemma quiet_plan : Forall quiet (plan fs).
Proof.
  apply Forall_forall. intros s [(v & _ & Hs) | ->]%elem_of_plan; [| done].
  by eapply quiet_variant_plan.
Qed.

(** The targets of every variant are 8-bit values. *)
Lemma variant_targets_ok v :
  v ∈ VARIANTS →
  channel_ok (round (255 * opaque_alpha v))
  ∧ channel_ok (round (255 * transparent_alpha v)).
Proof.
  unfold VARIANTS. rewrite !elem_of_cons, elem_of_nil.
  intros [-> | [-> | [-> | []]]]; vm_compute; intuition discriminate.
Qed.

(** What a run adds, returning or not, comes from steps of the plan. *)
Lemma script_adds w :
  ∃ files ms paths,
    (script fs w).2
    = mkWorld (saved w ++ files) (stdout w ++ ms) (opened w ++ paths)
    ∧ (∀ f, f ∈ files → ∃ s, s ∈ plan fs ∧ f ∈ step_files fs s)
    ∧ (∀ i, i ∈ paths → ∃ s, s ∈ plan fs ∧ i ∈ step_reads fs s).
Proof.
  rewrite script_world, main_world.
  exists (outputs fs (started fs (plan fs))),
         (lines fs (started fs (plan fs))),
         (reads fs (started fs (plan fs))).
  split; [done |]. split.
  - intros f (s & Hs & Hf)%elem_of_outputs. exists s.
    split; [by eapply elem_of_started | done].
  - intros i (s & Hs & Hi)%elem_of_reads. exists s.
    split; [by eapply elem_of_started | done].
Qed.

Lemma script_saved w :
  ∃ new, saved (script fs w).2 = saved w ++ new
         ∧ ∀ f, f ∈ new → ∃ s, s ∈ plan fs ∧ f ∈ step_files fs s.
Proof.
  destruct (script_adds w) as (files & ms & paths & -> & Hfiles & _).
  by exists files.
Qed.
End PlanShape.

(** ** What is printed and what is saved *)

Section Log.
Variable fs : FileSystem.

Lemma processed_paths_app ms ms' :
  processed_paths (ms ++ ms') = processed_paths ms ++ processed_paths ms'.
Proof. unfold processed_paths. apply bind_app. Qed.

(** A step that succeeds announces what it saves. *)
Lemma step_log s :
  quiet s → step_ok fs s = true →
  processed_paths (step_lines fs s) = (step_files fs s).*1.
Proof.
  destruct s as [d | i o oa ta | m]; intros Hq Hok.
  - done.
  - by destruct (step_transform_ok fs _ _ _ _ Hok)
      as (img & out & changed & hi & lo & _ & _ & _ & -> & ->).
  - rewrite step_say_files, step_say_lines by done. by destruct m.
Qed.

(** The log of the steps started names the files saved, but for the one
    file a failing step may have saved. *)
Lemma started_log p :
  Forall quiet p →
  ∃ rest,
    (outputs fs (started fs p)).*1
    = processed_paths (lines fs (started fs p)) ++ rest
    ∧ (length rest ≤ 1)%nat
    ∧ (all_ok fs p = true → rest = []).
Proof.
  induction 1 as [|s p Hs Hp IH].
  - exists []. cbn. auto.
  - cbn [started]. rewrite outputs_cons, lines_cons, all_ok_cons.
    rewrite fmap_app, processed_paths_app.
    destruct (step_ok fs s) eqn:Hok.
    + destruct IH as (rest & Heq & Hlen & Hall). exists rest.
      rewrite Heq, (step_log s Hs Hok), app_assoc. auto.
    + destruct (step_fail fs s Hok) as [Hlines Hfiles].
      exists (step_files fs s).*1. rewrite Hlines.
      cbn. rewrite !app_nil_r, length_fmap. done.
Qed.
End Log.

(** X8. The log follows the files, also when the run breaks off: if the
    [Processed] lines printed so far name the files saved so far, in
    order, then after [main], whether it returns or raises, they name the
    files saved, in order, except for at most one, the last: the file
    whose line could not be printed.  No line is printed for a file that
    was not saved, and when [main] returns every file has its line. *)
Theorem main_log_matches_files fs w :
  processed_paths (stdout w) = (saved w).*1 →
  ∃ unannounced,
    (saved (main fs w).2).*1
    = processed_paths (stdout (main fs w).2) ++ unannounced
    ∧ (length unannounced ≤ 1)%nat
    ∧ (∀ status, (main fs w).1 = Ok status → unannounced = []).
Proof.
  intros Hw.
  destruct (started_log fs (plan fs) (quiet_plan fs))
    as (rest & Heq & Hlen & Hall).
  exists rest. rewrite main_world. unfold after. cbn [saved stdout].
  rewrite fmap_app, processed_paths_app, Heq, Hw, app_assoc.
  split; [done |]. split; [done |].
  intros status Hret. apply Hall.
  pose proof (main_spec fs w) as Hmain.
  destruct (main fs w) as [[st | e] w']; [| done].
  by destruct Hmain as (_ & Hok & _).
Qed.

Lemma main_log_matches_files_witness :
  ∃ unannounced,
    (saved (main fs_unprintable world0).2).*1
    = processed_paths (stdout (main fs_unprintable world0).2) ++ unannounced
    ∧ (length unannounced ≤ 1)%nat
    ∧ (∀ status,
         (main fs_unprintable world0).1 = Ok status → unannounced = []).
Proof. apply main_log_matches_files. reflexivity. Defined.

(** X9. End to end: provided the decoder hands over well-formed images,
    every file the script adds, whether the run completes or breaks off,
    is the remapped image of an input of the batch under the 8-bit targets
    of one of the variants; it is a well-formed 8-bit RGBA image with the
    dimensions of that input. *)
Theorem script_saves_remapped_inputs fs w f :
  (∀ p img, open_rgba fs p = Ok img → image_ok img) →
  f ∈ saved (script fs w).2 →
  f ∈ saved w
  ∨ ∃ v i img changed modes,
      v ∈ VARIANTS ∧ i ∈ in_paths (plan fs)
      ∧ open_rgba fs i = Ok img
      ∧ remap img (round (255 * opaque_alpha v))
          (round (255 * transparent_alpha v))
        = Ok (f.2, changed, modes)
      ∧ image_ok f.2 ∧ size f.2 = size img.
Proof.
  intros Hdec Hf. destruct (script_saved fs w) as (new & Hsaved & Hnew).
  rewrite Hsaved in Hf. apply elem_of_app in Hf as [Hf | Hf]; [by left |].
  right. destruct (Hnew f Hf) as (s & Hs & Hfs).
  destruct (elem_of_step_files fs s f Hfs)
    as (i & oa & ta & img & changed & modes & -> & Hopen & Hremap).
  destruct (transform_in_plan fs _ _ _ _ Hs) as (v & Hv & Hvs).
  destruct (transform_in_variant_plan fs v _ _ _ _ Hvs) as (-> & -> & _).
  destruct (variant_targets_ok v Hv) as [Hoa Hta].
  pose proof (Hdec i img Hopen) as Hok.
  exists v, i, img, changed, modes. split; [done |]. split.
  { unfold in_paths. apply list_elem_of_bind. eexists. split; [| exact Hs].
    apply list_elem_of_here. }
  split; [done |]. split; [done |].
  destruct (remap_spec img (round (255 * opaque_alpha v))
              (round (255 * transparent_alpha v)) Hok Hoa Hta)
    as (hi & lo & _ & Hrun).
  rewrite Hrun in Hremap. injection Hremap as <- _ _.
  split; [by apply image_ok_remapped | done].
Qed.

Lemma script_saves_remapped_inputs_witness :
  ∃ v i img changed modes,
    v ∈ VARIANTS ∧ i ∈ in_paths (plan fs_good)
    ∧ open_rgba fs_good i = Ok img
    ∧ remap img (round (255 * opaque_alpha v))
        (round (255 * transparent_alpha v))
      = Ok (mkImage (2%nat, 1%nat) [(255, 0, 0, 26); (0, 255, 0, 64)],
            changed, modes)
    ∧ image_ok (mkImage (2%nat, 1%nat) [(255, 0, 0, 26); (0, 255, 0, 64)])
    ∧ size (mkImage (2%nat, 1%nat) [(255, 0, 0, 26); (0, 255, 0, 64)])
      = size img.
Proof.
  destruct (script_saves_remapped_inputs fs_good world0
              ("/mod/graphics/a10_25/edge/a.png",
               mkImage (2%nat, 1%nat) [(255, 0, 0, 26); (0, 255, 0, 64)]))
    as [Hold | Hnew].
  - intros p img [= <-]. solve_image_ok.
  - vm_compute. do 4 apply list_elem_of_further. apply list_elem_of_here.
  - cbn in Hold. by apply elem_of_nil in Hold.
  - exact Hnew.
Defined.

(** ** Where the batch reads and writes *)

Lemma string_app_assoc (a b c : string) : (a +:+ b) +:+ c = a +:+ (b +:+ c).
Proof.
  induction a as [|x a IH]; [done |].
  change (String x ((a +:+ b) +:+ c) = String x (a +:+ (b +:+ c))).
  by f_equal.
Qed.

Lemma string_app_cancel (a b c : string) : a +:+ b = a +:+ c → b = c.
Proof. apply (inj (String.app a)). Qed.

Lemma string_app_length (a b : string) :
  String.length (a +:+ b) = (String.length a + String.length b)%nat.
Proof.
  induction a as [|x a IH]; [done |].
  change (S (String.length (a +:+ b))
          = S (String.length a + String.length b)).
  by rewrite IH.
Qed.

Lemma substring_app_skip (a s : string) (k m : nat) :
  substring (String.length a + k) m (a +:+ s) = substring k m s.
Proof.
  induction a as [|x a IH]; [done |].
  change (substring (S (String.length a + k)) m (String x (a +:+ s))
          = substring k m s).
  exact IH.
Qed.

(** Whether a path ends in a separator is decided by its last part. *)
Lemma endswith_sep_app (a s : string) :
  s ≠ EmptyString → endswith (a +:+ s) "/" = endswith s "/".
Proof.
  intros Hs. unfold endswith. rewrite string_app_length.
  destruct s as [|x s]; [done |].
  change (String.length (String x s)) with (S (String.length s)).
  change (String.length "/") with 1%nat.
  rewrite !bool_decide_eq_true_2 by lia.
  replace (String.length a + S (String.length s) - 1)%nat
    with (String.length a + String.length s)%nat by lia.
  replace (S (String.length s) - 1)%nat with (String.length s) by lia.
  by rewrite substring_app_skip.
Qed.

Lemma plain_app (a s : string) :
  s ≠ EmptyString → endswith s "/" = false → plain (a +:+ s).
Proof.
  intros Hs Hend. split; [| by rewrite endswith_sep_app].
  intros Heq. apply (f_equal String.length) in Heq.
  rewrite string_app_length in Heq. destruct s; [done |].
  cbn in Heq. lia.
Qed.

Lemma path_join_plain (a b : string) :
  plain a → startswith b "/" = false → path_join a b = a +:+ "/" +:+ b.
Proof.
  intros [Ha Hend] Hb. unfold path_join.
  by rewrite Hb, Hend, bool_decide_eq_false_2.
Qed.

Lemma segment_spec (s : string) :
  segment s = true →
  startswith s "/" = false ∧ s ≠ EmptyString ∧ endswith s "/" = false.
Proof.
  unfold segment. rewrite !andb_true_iff, !negb_true_iff.
  intros [[Hstart Hne] Hend]. split; [done |]. split; [| done].
  intros ->. done.
Qed.

Lemma plain_join (a s : string) :
  plain a → segment s = true → plain (path_join a s).
Proof.
  intros Ha (Hstart & Hne & Hend)%segment_spec.
  rewrite path_join_plain by done. apply plain_app.
  - done.
  - change ("/" +:+ s) with (String "/" EmptyString +:+ s).
    by rewrite endswith_sep_app.
Qed.

Lemma join2 (g a b : string) :
  plain g → segment a = true → startswith b "/" = false →
  path_join (path_join g a) b = g +:+ "/" +:+ a +:+ "/" +:+ b.
Proof.
  intros Hg Ha Hb. rewrite (path_join_plain (path_join g a)) by
    (by apply plain_join || done).
  apply segment_spec in Ha as (Hstart & _ & _).
  rewrite (path_join_plain g a) by done.
  by rewrite !string_app_assoc.
Qed.

Lemma join3 (g a b c : string) :
  plain g → segment a = true → segment b = true →
  startswith c "/" = false →
  path_join (path_join (path_join g a) b) c
  = g +:+ "/" +:+ a +:+ "/" +:+ b +:+ "/" +:+ c.
Proof.
  intros Hg Ha Hb Hc. rewrite join2 by (by apply plain_join || done).
  apply segment_spec in Ha as (Hstart & _ & _).
  rewrite (path_join_plain g a) by done.
  by rewrite !string_app_assoc.
Qed.

Lemma segment_kind kind : kind ∈ KINDS → segment kind = true.
Proof.
  unfold KINDS. rewrite !elem_of_cons, elem_of_nil.
  by intros [-> | [-> | [-> | []]]].
Qed.

Lemma segment_tag v : v ∈ VARIANTS → segment (tag v) = true.
Proof.
  unfold VARIANTS. rewrite !elem_of_cons, elem_of_nil.
  by intros [-> | [-> | [-> | []]]].
Qed.

(** Paths below the graphics folder, compared by what follows it. *)
Ltac path_neq H :=
  rewrite ?string_app_assoc in H;
  apply string_app_cancel in H; cbn in H; discriminate H.

Section Paths.
Variable fs : FileSystem.
Hypothesis names_relative :
  ∀ d name, name ∈ listdir fs d → startswith name "/" = false.

Lemma plain_GFX : plain (GFX fs).
Proof.
  unfold GFX, path_join.
  change (startswith "graphics" "/") with false. cbn match.
  destruct (bool_decide (ROOT fs = EmptyString) || endswith (ROOT fs) "/");
    by apply plain_app.
Qed.

(** Every file the batch opens lies below [graphics/base]. *)
Lemma in_path_under_base v i o oa ta :
  Transform i o oa ta ∈ variant_plan fs v →
  ∃ r, i = GFX fs +:+ "/base/" +:+ r.
Proof.
  intros Hs. apply transform_in_variant_plan in Hs
    as (_ & _ & [(kind & name & Hk & Hn & _ & -> & _) | [-> _]]).
  - exists (kind +:+ "/" +:+ name).
    rewrite join3; [done | apply plain_GFX | done | by apply segment_kind |].
    by eapply names_relative.
  - exists "chart-border.png". unfold BORDER_IN.
    by rewrite join2; [| apply plain_GFX | |].
Qed.

(** Every file the batch saves lies below the folder of its variant. *)
Lemma out_path_under_variant v i o oa ta :
  v ∈ VARIANTS →
  Transform i o oa ta ∈ variant_plan fs v →
  ∃ r, o = GFX fs +:+ "/" +:+ tag v +:+ "/" +:+ r.
Proof.
  intros Hv Hs. apply transform_in_variant_plan in Hs
    as (_ & _ & [(kind & name & Hk & Hn & _ & _ & ->) | [_ ->]]).
  - exists (kind +:+ "/" +:+ name). unfold variant_root.
    rewrite join3; [done | apply plain_GFX | by apply segment_tag
                   | by apply segment_kind |].
    by eapply names_relative.
  - exists "chart-border.png". unfold border_out_path, variant_root.
    by rewrite join2; [| apply plain_GFX | apply segment_tag |].
Qed.

Lemma base_not_variant v r r' :
  v ∈ VARIANTS →
  GFX fs +:+ "/base/" +:+ r ≠ GFX fs +:+ "/" +:+ tag v +:+ "/" +:+ r'.
Proof.
  unfold VARIANTS. rewrite !elem_of_cons, elem_of_nil.
  intros [-> | [-> | [-> | []]]] Heq; cbn [tag] in Heq; path_neq Heq.
Qed.

Lemma out_paths_app p q : out_paths (p ++ q) = out_paths p ++ out_paths q.
Proof. unfold out_paths. apply bind_app. Qed.

Lemma out_paths_file_steps in_dir out_dir oa ta names :
  out_paths (mjoin (file_steps in_dir out_dir oa ta <$> names))
  = path_join out_dir <$> filter (λ name, is_png name) names.
Proof.
  induction names as [|name names IH]; [done |].
  rewrite fmap_cons.
  change (mjoin (?a :: ?l)) with (a ++ mjoin l).
  rewrite out_paths_app, IH. unfold file_steps.
  destruct (is_png name) eqn:Hpng.
  - by rewrite filter_cons_True by (by rewrite Hpng).
  - by rewrite filter_cons_False by (rewrite Hpng; intros []).
Qed.

Lemma out_paths_folder_plan in_dir out_dir oa ta :
  out_paths (folder_plan fs in_dir out_dir oa ta)
  = if isdir fs in_dir
    then path_join out_dir <$> filter (λ name, is_png name) (listdir fs in_dir)
    else [].
Proof.
  unfold folder_plan. destruct (isdir fs in_dir); [| done].
  change (Mkdir out_dir :: ?l) with ([Mkdir out_dir] ++ l).
  by rewrite out_paths_app, out_paths_file_steps.
Qed.

Lemma elem_of_out_paths_folder in_dir out_dir oa ta o :
  o ∈ out_paths (folder_plan fs in_dir out_dir oa ta) →
  ∃ name, startswith name "/" = false ∧ o = path_join out_dir name.
Proof.
  rewrite out_paths_folder_plan.
  destruct (isdir fs in_dir); [| by intros ?%elem_of_nil].
  intros (name & -> & [_ Hname]%list_elem_of_filter)%list_elem_of_fmap.
  exists name. split; [by eapply names_relative | done].
Qed.

Lemma NoDup_out_paths_folder in_dir out_dir oa ta :
  plain out_dir →
  NoDup (listdir fs in_dir) →
  NoDup (out_paths (folder_plan fs in_dir out_dir oa ta)).
Proof.
  intros Hplain Hnd. rewrite out_paths_folder_plan.
  destruct (isdir fs in_dir); [| constructor].
  apply NoDup_fmap_2_strong; [| by apply NoDup_filter].
  intros a b [_ Ha]%list_elem_of_filter [_ Hb]%list_elem_of_filter.
  rewrite !path_join_plain by (done || by eapply names_relative).
  intros Heq. by do 2 apply string_app_cancel in Heq.
Qed.

(** Within a variant the three folders and the border file do not
    meet. *)
Lemma kinds_apart (vr k k' n n' : string) :
  plain vr → k ∈ KINDS → k' ∈ KINDS →
  startswith n "/" = false → startswith n' "/" = false →
  path_join (path_join vr k) n = path_join (path_join vr k') n' → k = k'.
Proof.
  intros Hvr Hk Hk' Hn Hn'.
  rewrite !join2 by (done || by apply segment_kind).
  unfold KINDS in Hk, Hk'. rewrite !elem_of_cons, !elem_of_nil in Hk, Hk'.
  intros Heq. apply string_app_cancel in Heq.
  destruct Hk as [-> | [-> | [-> | []]]], Hk' as [-> | [-> | [-> | []]]];
    try done; cbn in Heq; discriminate Heq.
Qed.

Lemma kind_not_border (vr k n : string) :
  plain vr → k ∈ KINDS → startswith n "/" = false →
  path_join (path_join vr k) n ≠ path_join vr "chart-border.png".
Proof.
  intros Hvr Hk Hn.
  rewrite join2 by (done || by apply segment_kind).
  rewrite path_join_plain by done.
  unfold KINDS in Hk. rewrite !elem_of_cons, !elem_of_nil in Hk.
  intros Heq. apply string_app_cancel in Heq.
  destruct Hk as [-> | [-> | [-> | []]]]; cbn in Heq; discriminate Heq.
Qed.

Lemma NoDup_out_paths_variant v :
  v ∈ VARIANTS →
  (∀ d, NoDup (listdir fs d)) → NoDup (out_paths (variant_plan fs v)).
Proof.
  intros Hv Hnd. unfold variant_plan. cbn zeta. rewrite !out_paths_app.
  assert (plain (variant_root fs (tag v))) as Hvr
    by (apply plain_join; [apply plain_GFX | by apply segment_tag]).
  assert ("edge" ∈ KINDS) as He by apply list_elem_of_here.
  assert ("corner" ∈ KINDS) as Hc
    by apply list_elem_of_further, list_elem_of_here.
  assert ("center" ∈ KINDS) as Hce
    by (do 2 apply list_elem_of_further; apply list_elem_of_here).
  assert (∀ o, o ∈ (if isfile fs (BORDER_IN fs)
                    then out_paths
                           [Transform (BORDER_IN fs)
                              (border_out_path fs (tag v))
                              (round (255 * opaque_alpha v))
                              (round (255 * transparent_alpha v))]
                    else []) →
               o = border_out_path fs (tag v)) as Hb.
  { intros o. destruct (isfile fs (BORDER_IN fs));
      [by intros ?%list_elem_of_singleton | by intros ?%elem_of_nil]. }
  replace (out_paths (if isfile fs (BORDER_IN fs) then _ else []))
    with (if isfile fs (BORDER_IN fs)
          then out_paths
                 [Transform (BORDER_IN fs) (border_out_path fs (tag v))
                    (round (255 * opaque_alpha v))
                    (round (255 * transparent_alpha v))]
          else []) by (by destruct (isfile fs (BORDER_IN fs))).
  unfold edges_out_dir, corners_out_dir, centers_out_dir.
  repeat (apply NoDup_app; split;
          [apply NoDup_out_paths_folder;
           [apply plain_join; [done | by apply segment_kind] | done] |];
          split).
  4: destruct (isfile fs (BORDER_IN fs)); [apply NoDup_singleton | constructor].
  all: intros o (n & Hn & ->)%elem_of_out_paths_folder; rewrite ?elem_of_app;
    intros Hin;
    repeat match goal with
    | H : _ ∨ _ |- _ => destruct H as [H | H]
    | H : _ ∈ out_paths (folder_plan _ _ _ _ _) |- _ =>
        apply elem_of_out_paths_folder in H as (n' & Hn' & H);
        apply kinds_apart in H; [discriminate H | done ..]
    | H : _ ∈ (if isfile _ _ then _ else _) |- _ =>
        apply Hb in H; unfold border_out_path in H;
        by apply kind_not_border in H
    end.
Qed.

Lemma elem_of_out_paths_variant v o :
  v ∈ VARIANTS →
  o ∈ out_paths (variant_plan fs v) →
  ∃ r, o = GFX fs +:+ "/" +:+ tag v +:+ "/" +:+ r.
Proof.
  intros Hv. unfold out_paths. intros (s & Ho & Hs)%list_elem_of_bind.
  destruct s as [d | i o' oa ta | m]; [by apply elem_of_nil in Ho | |
                                        by apply elem_of_nil in Ho].
  apply list_elem_of_singleton in Ho as ->.
  by eapply out_path_under_variant.
Qed.

Lemma NoDup_out_paths_plan :
  (∀ d, NoDup (listdir fs d)) → NoDup (out_paths (plan fs)).
Proof.
  intros Hnd. unfold plan. rewrite out_paths_app.
  replace (out_paths [Say _]) with (@nil string) by done.
  rewrite app_nil_r.
  unfold batch, VARIANTS. rewrite !fmap_cons.
  change (mjoin (?a :: ?b :: ?c :: (variant_plan fs <$> [])))
    with (a ++ b ++ c ++ []).
  rewrite !out_paths_app.
  assert (mkVariant "a40_15" (40 # 100) (15 # 100) ∈ VARIANTS) as H1
    by apply list_elem_of_here.
  assert (mkVariant "a20_075" (20 # 100) (75 # 1000) ∈ VARIANTS) as H2
    by apply list_elem_of_further, list_elem_of_here.
  assert (mkVariant "a10_25" (10 # 100) (25 # 100) ∈ VARIANTS) as H3
    by (do 2 apply list_elem_of_further; apply list_elem_of_here).
  repeat (apply NoDup_app; split; [by apply NoDup_out_paths_variant |];
          split); [.. | constructor].
  all: intros o (r & ->)%elem_of_out_paths_variant; [| done];
    rewrite ?elem_of_app; intros Hin;
    repeat match goal with
    | H : _ ∨ _ |- _ => destruct H as [H | H]
    | H : _ ∈ out_paths (variant_plan _ _) |- _ =>
        apply elem_of_out_paths_variant in H as (r' & H); [| done];
        cbn [tag] in H; path_neq H
    | H : _ ∈ out_paths [] |- _ => by apply elem_of_nil in H
    end.
Qed.

(** The paths saved by the steps started are among the output paths of
    the plan, in order. *)
Lemma saved_paths_sublist p :
  (outputs fs (started fs p)).*1 `sublist_of` out_paths p.
Proof.
  induction p as [|s p IH]; [done |].
  cbn [started]. rewrite outputs_cons, fmap_app.
  change (s :: p) with ([s] ++ p). rewrite out_paths_app.
  apply sublist_app.
  - destruct s as [d | i o oa ta | m].
    + constructor.
    + unfold step_files. cbn [run_step]. rewrite transform_image_eq.
      cbn zeta. destruct (open_rgba fs i) as [img | e];
        [| apply sublist_nil_l].
      destruct (remap img oa ta) as [[[out changed] [hi lo]] | e];
        [| apply sublist_nil_l].
      destruct (can_save fs o); [| apply sublist_nil_l].
      by destruct (print_exn fs _).
    + rewrite step_say_files. constructor.
  - destruct (step_ok fs s); [exact IH | apply sublist_nil_l].
Qed.
End Paths.

(** X10. The batch never overwrites what it reads.  Provided the listing
    of a folder gives names, not absolute paths, every path the script
    hands to [Image.open] during a run differs from every path it saves
    to during that run, whether the run completes or breaks off: what is
    opened lies below [graphics/base], what is saved below the folder of a
    variant. *)
Theorem outputs_never_overwrite_inputs fs w :
  (∀ d name, name ∈ listdir fs d → startswith name "/" = false) →
  ∃ paths files,
    opened (script fs w).2 = opened w ++ paths
    ∧ saved (script fs w).2 = saved w ++ files
    ∧ (∀ i, i ∈ paths → ∃ r, i = GFX fs +:+ "/base/" +:+ r)
    ∧ (∀ f, f ∈ files →
         ∃ v r, v ∈ VARIANTS ∧ f.1 = GFX fs +:+ "/" +:+ tag v +:+ "/" +:+ r)
    ∧ ∀ i f, i ∈ paths → f ∈ files → i ≠ f.1.
Proof.
  intros Hrel.
  destruct (script_adds fs w) as (files & ms & paths & -> & Hfiles & Hpaths).
  assert (∀ i, i ∈ paths → ∃ r, i = GFX fs +:+ "/base/" +:+ r) as Hin.
  { intros i (s & Hs & Hi)%Hpaths.
    apply elem_of_step_reads in Hi as (o & oa & ta & ->).
    apply transform_in_plan in Hs as (v & _ & Hs).
    by eapply in_path_under_base. }
  assert (∀ f, f ∈ files →
            ∃ v r, v ∈ VARIANTS
              ∧ f.1 = GFX fs +:+ "/" +:+ tag v +:+ "/" +:+ r) as Hout.
  { intros f (s & Hs & Hf)%Hfiles.
    apply elem_of_step_files in Hf as (i & oa & ta & _ & _ & _ & -> & _).
    apply transform_in_plan in Hs as (v & Hv & Hs).
    exists v. destruct (out_path_under_variant fs Hrel v _ _ _ _ Hv Hs)
      as (r & Hr). eauto. }
  exists paths, files. split; [done |]. split; [done |].
  split; [exact Hin |]. split; [exact Hout |].
  intros i f (r & ->)%Hin (v & r' & Hv & ->)%Hout.
  by apply base_not_variant.
Qed.

Lemma outputs_never_overwrite_inputs_witness :
  ∃ paths files,
    opened (script fs_good world0).2 = opened world0 ++ paths
    ∧ saved (script fs_good world0).2 = saved world0 ++ files
    ∧ (∀ i, i ∈ paths → ∃ r, i = GFX fs_good +:+ "/base/" +:+ r)
    ∧ (∀ f, f ∈ files →
         ∃ v r, v ∈ VARIANTS
           ∧ f.1 = GFX fs_good +:+ "/" +:+ tag v +:+ "/" +:+ r)
    ∧ ∀ i f, i ∈ paths → f ∈ files → i ≠ f.1.
Proof.
  apply outputs_never_overwrite_inputs.
  intros d name Hname. cbn in Hname.
  rewrite !elem_of_cons, elem_of_nil in Hname.
  by destruct Hname as [-> | [-> | [-> | []]]].
Defined.

(** X11. No two outputs collide: when the listing of a folder names no
    entry twice and gives names, not absolute paths, the files saved
    during a run, over all variants, folders and the border file, have
    pairwise distinct paths, so the script overwrites no file it has saved
    itself. *)
Theorem outputs_pairwise_distinct fs w :
  (∀ d, NoDup (listdir fs d)) →
  (∀ d name, name ∈ listdir fs d → startswith name "/" = false) →
  ∃ files,
    saved (script fs w).2 = saved w ++ files ∧ NoDup files.*1.
Proof.
  intros Hnd Hrel. rewrite script_world, main_world.
  exists (outputs fs (started fs (plan fs))). split; [done |].
  eapply sublist_NoDup; [| apply saved_paths_sublist].
  by apply NoDup_out_paths_plan.
Qed.

Lemma outputs_pairwise_distinct_witness :
  ∃ files,
    saved (script fs_good world0).2 = saved world0 ++ files
    ∧ NoDup files.*1.
Proof.
  apply outputs_pairwise_distinct.
  - intros d. cbn. apply (bool_decide_unpack _). vm_compute. exact I.
  - intros d name Hname. cbn in Hname.
    rewrite !elem_of_cons, elem_of_nil in Hname.
    by destruct Hname as [-> | [-> | [-> | []]]].
Defined.

(** * The icon exporter *)

Section ExportProps.
Import ExportIcons.
Variable env : Env.

Lemma m_bind_eq {A B : Type} (m : M A) (k : A → M B) (w : World) :
  (m ≫= k) w
  = match m w with
    | (Return a, w') => k a w'
    | (Throw e, w') => (Throw e, w')
    end.
Proof. reflexivity. Qed.


Lemma print_ok m w :
  print_exn env m = None →
  print env m w = (Return (), mkWorld (stdout w ++ [m]) (spawned w)).
Proof. intros Hm. unfold print. by rewrite Hm. Qed.

Lemma print_returns m w u w' :
  print env m w = (Return u, w') →
  w' = mkWorld (stdout w ++ [m]) (spawned w).
Proof.
  unfold print. destruct (print_exn env m); [done |]. by intros [= _ <-].
Qed.


(** One round of the loop, when every line can be printed: the command is
    always spawned; the counter goes up exactly when it returns code 0; an
    exception of the spawn is not caught. *)
Lemma export_body_spec ink e n w :
  stdout_ok env →
  ∃ ms,
    export_body env ink e n w
    = (match run_result env (export_cmd_of env ink e) with
       | inl c =>
           Return (if bool_decide (returncode c = 0) then (n + 1)%nat else n)
       | inr x => Throw (SpawnError x)
       end,
       mkWorld (stdout w ++ ms) (spawned w ++ [export_cmd_of env ink e])).
Proof.
  intros Hprint. destruct e as [dpi filename].
  unfold export_body, export_svg_to_png, export_cmd_of. cbn [fst snd].
  rewrite !m_bind_eq, print_ok by apply Hprint. cbn [stdout spawned].
  unfold run at 1. cbn [stdout spawned].
  destruct (run_result env _) as [c | x].
  - rewrite m_bind_eq. cbn beta iota.
    destruct (decide (returncode c = 0)) as [Hrc | Hrc].
    + rewrite (bool_decide_eq_false_2 (returncode c ≠ 0)) by (by intros ?).
      rewrite (bool_decide_eq_true_2 (returncode c = 0)) by done.
      eexists [_; _].
      rewrite !m_bind_eq, print_ok by apply Hprint.
      unfold mret, M_ret. cbn [stdout spawned].
      by rewrite <- !app_assoc.
    + rewrite (bool_decide_eq_true_2 (returncode c ≠ 0)) by done.
      rewrite (bool_decide_eq_false_2 (returncode c = 0)) by done.
      eexists [_; _; _].
      rewrite !m_bind_eq, print_ok by apply Hprint.
      rewrite !m_bind_eq, print_ok by apply Hprint.
      unfold mret, M_ret. cbn [stdout spawned].
      by rewrite <- !app_assoc.
  - by eexists [_].
Qed.

(** The loop over any list of exports that all return: every command is
    spawned, in order, and the counter counts the return codes 0. *)
Lemma export_loop_returns ink l n w :
  stdout_ok env →
  Forall (λ e, export_returns env ink e) l →
  ∃ ms,
    for_ l (export_body env ink) n w
    = (Return (n + length (filter (λ e, export_succeeds env ink e) l))%nat,
       mkWorld (stdout w ++ ms) (spawned w ++ (export_cmd_of env ink <$> l))).
Proof.
  intros Hprint Hall. revert n w.
  induction Hall as [|e l He Hall IH]; intros n w.
  - exists []. cbn. rewrite !app_nil_r, Nat.add_0_r. by destruct w.
  - cbn [for_]. rewrite m_bind_eq.
    destruct (export_body_spec ink e n w Hprint) as (ms & ->).
    unfold export_returns in He.
    destruct (run_result env (export_cmd_of env ink e)) as [c | x] eqn:Hrun;
      [| done].
    assert (export_succeeds env ink e = bool_decide (returncode c = 0))
      as Hsucc by (unfold export_succeeds; by rewrite Hrun).
    destruct (IH (if bool_decide (returncode c = 0) then (n + 1)%nat else n)
                (mkWorld (stdout w ++ ms)
                   (spawned w ++ [export_cmd_of env ink e])))
      as (ms' & ->).
    exists (ms ++ ms'). cbn [stdout spawned]. rewrite fmap_cons.
    rewrite <- !app_assoc. cbn [app].
    destruct (bool_decide (returncode c = 0)) eqn:Hrc.
    + rewrite filter_cons_True by (by rewrite Hsucc).
      cbn [length]. by rewrite <- Nat.add_assoc.
    + rewrite filter_cons_False by (rewrite Hsucc; intros []). done.
Qed.






Lemma main_unfold w :
  main env w
  = (if negb (path_exists env (svg_file env)) then
       _ ← print env (Svg_not_found (svg_file env)); sys_exit 1
     else
       inkscape_path ← find_inkscape env;
       if falsy inkscape_path then
         _ ← print env Inkscape_not_found;
         _ ← print env Please_install;
         sys_exit 1
       else
         let inkscape_path := default "" inkscape_path in
         _ ← print env (Using_inkscape inkscape_path);
         _ ← print env (Source (svg_file env));
         success_count ← for_ exports (export_body env inkscape_path) 0%nat;
         _ ← print env (Completed success_count (length exports));
         if bool_decide (success_count < length exports)%nat then sys_exit 1
         else mret ()) w.
Proof. reflexivity. Qed.

(** [find_inkscape] prints nothing and its answer does not depend on what
    was printed or spawned before. *)
Lemma find_inkscape_result w :
  ∃ cmds,
    find_inkscape env w
    = ((find_inkscape env world0).1,
       mkWorld (stdout w) (spawned w ++ cmds)).
Proof.
  unfold find_inkscape.
  destruct (List.find (path_exists env) (possible_paths env)).
  - exists []. cbn. rewrite app_nil_r. by destruct w.
  - exists [["inkscape"; "--version"]]. unfold run. cbn [stdout spawned].
    destruct (run_result env ["inkscape"; "--version"]) as [c | []];
      [case_bool_decide | ..]; done.
Qed.

(** The run once the icon sheet and Inkscape are there, every export
    command returns and every line can be printed. *)
Lemma main_exports ink w cmds :
  stdout_ok env →
  path_exists env (svg_file env) = true →
  find_inkscape env w
  = (Return (Some ink), mkWorld (stdout w) (spawned w ++ cmds)) →
  ink ≠ "" →
  Forall (λ e, export_returns env ink e) exports →
  ∃ ms,
    let n := length (filter (λ e, export_succeeds env ink e) exports) in
    main env w
    = (if bool_decide (n < 3)%nat then Throw (SystemExit 1) else Return (),
       mkWorld (stdout w ++ ms ++ [Completed n 3])
         (spawned w ++ cmds ++ (export_cmd_of env ink <$> exports))).
Proof.
  intros Hprint Hsvg Hfind Hink Hret. rewrite main_unfold, Hsvg. cbn [negb].
  rewrite m_bind_eq, Hfind. cbn [falsy].
  rewrite bool_decide_eq_false_2 by done.
  change (default "" (Some ink)) with ink.
  do 2 (rewrite m_bind_eq, print_ok by apply Hprint; cbn [stdout spawned]).
  rewrite m_bind_eq.
  destruct (export_loop_returns ink exports 0
              (mkWorld ((stdout w ++ [Using_inkscape ink])
                        ++ [Source (svg_file env)])
                 (spawned w ++ cmds)) Hprint Hret) as (ms & ->).
  cbn [stdout spawned]. rewrite Nat.add_0_l.
  rewrite m_bind_eq, print_ok by apply Hprint. cbn [stdout spawned].
  exists ([Using_inkscape ink; Source (svg_file env)] ++ ms). cbn zeta.
  change (length exports) with 3%nat.
  rewrite <- !app_assoc. cbn [app].
  by case_bool_decide.
Qed.


(** *** Exceptions never carry the exit status 0 *)











End ExportProps.

Lemma find_first {A : Type} (f : A → bool) (l : list A) (p : A) :
  List.find f l = Some p →
  ∃ pre post, l = pre ++ p :: post ∧ f p = true
              ∧ Forall (λ q, f q = false) pre.
Proof.
  induction l as [|x l IH]; cbn [List.find]; [done |].
  destruct (f x) eqn:Hx.
  - intros [= ->]. exists [], l. by repeat split.
  - intros (pre & post & -> & Hp & Hpre)%IH.
    exists (x :: pre), post. split; [done |]. split; [done |].
    by constructor.
Qed.

Lemma find_none {A : Type} (f : A → bool) (l : list A) :
  List.find f l = None ↔ ∀ x, x ∈ l → f x = false.
Proof.
  induction l as [|x l IH]; cbn [List.find].
  - split; [| done]. by intros _ x ?%elem_of_nil.
  - destruct (f x) eqn:Hx.
    + split; [done |]. intros Hall.
      rewrite (Hall x) in Hx by apply list_elem_of_here. done.
    + rewrite IH. split.
      * intros Hall y [-> | Hy]%elem_of_cons; auto.
      * intros Hall y Hy. by apply Hall, list_elem_of_further.
Qed.

(** X12. [find_inkscape] prefers an installed copy: when one of the
    three candidate paths exists it returns the first that does, in the
    order of the list, without spawning or printing anything. *)
Theorem find_inkscape_first_existing env w c :
  c ∈ ExportIcons.possible_paths env →
  ExportIcons.path_exists env c = true →
  ∃ p pre post,
    ExportIcons.find_inkscape env w = (ExportIcons.Return (Some p), w)
    ∧ ExportIcons.possible_paths env = pre ++ p :: post
    ∧ ExportIcons.path_exists env p = true
    ∧ Forall (λ q, ExportIcons.path_exists env q = false) pre.
Proof.
  intros Hc Hex. unfold ExportIcons.find_inkscape.
  destruct (List.find (ExportIcons.path_exists env)
              (ExportIcons.possible_paths env)) as [p |] eqn:Hfind.
  - destruct (find_first _ _ _ Hfind) as (pre & post & Hl & Hp & Hpre).
    by exists p, pre, post.
  - rewrite find_none in Hfind. rewrite (Hfind c Hc) in Hex. done.
Qed.

(** X13. With no installed copy, [find_inkscape] spawns exactly the
    probe [inkscape --version] and prints nothing.  It answers
    ["inkscape"] exactly when the probe returns code 0, and no path
    exactly when the probe returns another code, times out or is not
    found; any other failure of the spawn is not caught. *)
Theorem find_inkscape_probe env w :
  (∀ c, c ∈ ExportIcons.possible_paths env →
        ExportIcons.path_exists env c = false) →
  let probe := ExportIcons.run_result env ["inkscape"; "--version"] in
  let r := ExportIcons.find_inkscape env w in
  r.2 = ExportIcons.mkWorld (ExportIcons.stdout w)
          (ExportIcons.spawned w ++ [["inkscape"; "--version"]])
  ∧ (r.1 = ExportIcons.Return (Some "inkscape")
     ↔ ∃ c, probe = inl c ∧ ExportIcons.returncode c = 0)
  ∧ (r.1 = ExportIcons.Return None
     ↔ (∃ c, probe = inl c ∧ ExportIcons.returncode c ≠ 0)
       ∨ probe = inr ExportIcons.TimeoutExpired
       ∨ probe = inr ExportIcons.FileNotFoundError)
  ∧ (r.1 = ExportIcons.Throw
             (ExportIcons.SpawnError ExportIcons.OtherError)
     ↔ probe = inr ExportIcons.OtherError).
Proof.
  intros Hnone%find_none. cbn zeta. unfold ExportIcons.find_inkscape.
  rewrite Hnone. unfold ExportIcons.run.
  cbn [ExportIcons.stdout ExportIcons.spawned].
  destruct (ExportIcons.run_result env ["inkscape"; "--version"])
    as [c | []]; [case_bool_decide as Hrc |..]; cbn [fst snd];
    (split; [done |]).
  - split; [split; [by eauto | done] |].
    split; [split; [done | by intros [(c' & [= <-] & ?) | [? | ?]]] |].
    by split.
  - split; [split; [done | by intros (c' & [= <-] & ?)] |].
    split; [split; [by eauto | done] |]. by split.
  - split; [split; [done | by intros (c' & ? & ?)] |].
    split; [split; [by eauto | done] |]. by split.
  - split; [split; [done | by intros (c' & ? & ?)] |].
    split; [split; [by eauto | done] |]. by split.
  - split; [split; [done | by intros (c' & ? & ?)] |].
    split; [split; [done | by intros [(c' & ? & ?) | [? | ?]]] |].
    by split.
Qed.

Lemma find_inkscape_first_existing_witness :
  ∃ p pre post,
    ExportIcons.find_inkscape ExportIcons.env_installed ExportIcons.world0
    = (ExportIcons.Return (Some p), ExportIcons.world0)
    ∧ ExportIcons.possible_paths ExportIcons.env_installed = pre ++ p :: post
    ∧ ExportIcons.path_exists ExportIcons.env_installed p = true
    ∧ Forall (λ q, ExportIcons.path_exists ExportIcons.env_installed q
                   = false) pre.
Proof.
  apply (find_inkscape_first_existing ExportIcons.env_installed
           ExportIcons.world0
           "C:\Program Files (x86)\Inkscape\bin\inkscape.exe").
  - apply list_elem_of_further, list_elem_of_here.
  - reflexivity.
Defined.

Lemma find_inkscape_probe_witness :
  (ExportIcons.find_inkscape ExportIcons.env_path ExportIcons.world0).1
  = ExportIcons.Return (Some "inkscape").
Proof.
  assert (∀ c, c ∈ ExportIcons.possible_paths ExportIcons.env_path →
               ExportIcons.path_exists ExportIcons.env_path c = false)
    as Hnone.
  { intros c Hc. unfold ExportIcons.possible_paths in Hc.
    rewrite !elem_of_cons, elem_of_nil in Hc.
    destruct Hc as [-> | [-> | [-> | []]]]; reflexivity. }
  destruct (find_inkscape_probe ExportIcons.env_path ExportIcons.world0 Hnone)
    as (_ & [_ Hyes] & _).
  apply Hyes. exists (ExportIcons.mkCompleted 0 ""). split; reflexivity.
Defined.

(** X14. Unlike the batch remapper, the exporter isolates a failed export:
    once the icon sheet and a non-empty Inkscape path are there, the three
    export commands return and every line can be printed, all three
    commands are spawned, in the order 24, 48, 96 DPI, whatever their
    return codes; the last line printed reports how many returned code 0,
    and the exit status is 0 when all three did and 1 otherwise. *)
Theorem exports_all_attempted env w ink :
  ExportIcons.stdout_ok env →
  ExportIcons.path_exists env (ExportIcons.svg_file env) = true →
  (ExportIcons.find_inkscape env w).1 = ExportIcons.Return (Some ink) →
  ink ≠ "" →
  Forall (λ e, ExportIcons.export_returns env ink e) ExportIcons.exports →
  let n := length (filter (λ e, ExportIcons.export_succeeds env ink e)
                     ExportIcons.exports) in
  ∃ probe,
    ExportIcons.spawned (ExportIcons.script env w).2
    = ExportIcons.spawned w ++ probe
      ++ (ExportIcons.export_cmd_of env ink <$> ExportIcons.exports)
    ∧ last (ExportIcons.stdout (ExportIcons.script env w).2)
      = Some (ExportIcons.Completed n 3)
    ∧ (ExportIcons.script env w).1 = if bool_decide (n = 3%nat) then 0 else 1.
Proof.
  intros Hprint Hsvg Hfind Hink Hret n.
  destruct (find_inkscape_result env w) as (cmds & Hres).
  rewrite Hres in Hfind. cbn [fst] in Hfind. rewrite Hfind in Hres.
  destruct (main_exports env ink w cmds Hprint Hsvg Hres Hink Hret)
    as (ms & Hmain).
  cbn zeta in Hmain. fold n in Hmain.
  exists cmds. unfold ExportIcons.script. rewrite Hmain.
  assert (n ≤ 3)%nat as Hn by apply length_filter.
  case_bool_decide; cbn [fst snd ExportIcons.stdout ExportIcons.spawned];
    (split; [done |]); rewrite !app_assoc, last_snoc;
    (split; [done |]); case_bool_decide; done || lia.
Qed.

Lemma exports_all_attempted_witness :
  ∃ probe,
    ExportIcons.spawned
      (ExportIcons.script ExportIcons.env_path ExportIcons.world0).2
    = ExportIcons.spawned ExportIcons.world0 ++ probe
      ++ (ExportIcons.export_cmd_of ExportIcons.env_path "inkscape"
            <$> ExportIcons.exports)
    ∧ last (ExportIcons.stdout
              (ExportIcons.script ExportIcons.env_path ExportIcons.world0).2)
      = Some (ExportIcons.Completed 2 3)
    ∧ (ExportIcons.script ExportIcons.env_path ExportIcons.world0).1 = 1.
Proof.
  apply (exports_all_attempted ExportIcons.env_path ExportIcons.world0
           "inkscape").
  - intros m. reflexivity.
  - reflexivity.
  - reflexivity.
  - discriminate.
  - repeat constructor.
Defined.



(** A console that cannot encode the [Created] line ends the run with
    status 1 after the first export, although every export would
    succeed. *)
Example script_env_ascii_console :
  ExportIcons.script ExportIcons.env_ascii_console ExportIcons.world0
  = (1, ExportIcons.mkWorld
          [ExportIcons.Using_inkscape "inkscape";
           ExportIcons.Source "/repo/graphics/icons/icons.svg";
           ExportIcons.Exporting "/repo/graphics/icons/icons-16.png" 24]
          [["inkscape"; "--version"];
           ExportIcons.export_cmd_of ExportIcons.env_ascii_console "inkscape"
             (24%nat, "icons-16.png")]).
Proof. vm_compute. reflexivity. Qed.
